(** * Playback synchronisation and loop engine of omo

    A shallow embedding of the TypeScript sources of the lyric player:
    - [src/utils/lyricsParser.ts]   : [LyricsParser.parseJSON], [LyricsParser.findCurrentLineIndex]
    - [src/hooks/useLoopState.ts]   : [loopReducer], [calculateTimeRangeFromLyrics],
                                      [validateTimeRange], [startLoop], [isLyricSelected],
                                      [getCalculatedTimeRange], [canStartLoop]
    - [src/hooks/useAudioSync.ts]   : [findCurrentLine], [calculateProgress], as
                                      [LyricsDisplay] calls the hook
    - [components/AudioPlayer.tsx]  : [checkLoopBoundary], the tick handler, [seekTo],
                                      [setLoopRegionHandler], [clearLoopHandler],
                                      the synchronous part of [handleSpeedChange]
    - [src/App.tsx]                 : the loop and selection handlers

    Times are milliseconds, modelled as [Z]; progress values are rationals [Q]. *)

From Stdlib Require Import ZArith List Lia Bool String QArith Qminmax Sorted Permutation.
Import ListNotations.

Open Scope Z_scope.

(* ================================================================== *)
(** ** Data model ([src/types/lyrics.ts]) *)

Module Types.

(** A JSON value as [parseJSON] receives it (numbers are integral milliseconds;
    an object is the list of its own properties, keys unique). *)
#[warnings="-register-all"]
Inductive Json :=
| JNull
| JBool (b : bool)
| JNum (n : Z)
| JStr (s : string)
| JArr (items : list Json)
| JObj (fields : list (string * Json)).

Record LyricLine := mkLine {
  startTime : Z;
  endTime : Z;
  japanese : string;
  romaji : string;
  english : string
}.

(** [parseJSON] copies [title] and [artist] as it finds them. *)
Record SongMetadata := mkMetadata {
  title : Json;
  artist : Json;
  duration : Z
}.

Record LyricsData := mkLyricsData {
  metadata : SongMetadata;
  lyrics : list LyricLine
}.

Record CurrentLine := mkCurrentLine {
  index : Z;
  line : option LyricLine;
  cl_isActive : bool
}.

End Types.
Import Types.

Definition default_line : LyricLine := mkLine 0 0 EmptyString EmptyString EmptyString.

(** [lyrics[i]] for an index the code has already bounded. *)
Definition line_at (lyrics : list LyricLine) (i : Z) : LyricLine :=
  nth (Z.to_nat i) lyrics default_line.

(** [lyrics[i]] for any index: [undefined] out of range. *)
Definition lookup_line (lyrics : list LyricLine) (i : Z) : option LyricLine :=
  if (0 <=? i) && (i <? Z.of_nat (List.length lyrics)) then Some (line_at lyrics i) else None.

(** [Array.prototype.sort] with a numeric comparator [(a, b) => key a - key b]:
    a stable sort, here the stable insertion sort. *)
Fixpoint insert_by {A} (le : A -> A -> bool) (x : A) (l : list A) : list A :=
  match l with
  | [] => [x]
  | y :: ys => if le x y then x :: l else y :: insert_by le x ys
  end.

Definition sort_by {A} (le : A -> A -> bool) (l : list A) : list A :=
  fold_right (insert_by le) [] l.

Definition len {A} (l : list A) : Z := Z.of_nat (List.length l).

(* ================================================================== *)
(** ** [LyricsParser.findCurrentLineIndex] *)

Module SegmentIndex.

(** The check after the loop: [result >= 0 && currentTime >= lyrics[result].startTime
    && currentTime < lyrics[result].endTime]. *)
Definition finish (lyrics : list LyricLine) (currentTime result : Z) : Z :=
  if (0 <=? result)
     && (startTime (line_at lyrics result) <=? currentTime)
     && (currentTime <? endTime (line_at lyrics result))
  then result else -1.

(** The [while (left <= right)] loop.  [fuel] bounds the number of
    iterations; [findCurrentLineIndex] starts it at [length + 1], which the
    proofs below show is never exhausted (the window shrinks every round). *)
Fixpoint search_loop (fuel : nat) (lyrics : list LyricLine) (currentTime left right result : Z) : Z :=
  match fuel with
  | O => finish lyrics currentTime result
  | S fuel' =>
      if left <=? right then
        let mid := (left + right) / 2 in
        let line := line_at lyrics mid in
        if (startTime line <=? currentTime) && (currentTime <? endTime line) then mid
        else if startTime line <=? currentTime
        then search_loop fuel' lyrics currentTime (mid + 1) right mid
        else search_loop fuel' lyrics currentTime left (mid - 1) result
      else finish lyrics currentTime result
  end.

Definition findCurrentLineIndex (lyrics : list LyricLine) (currentTime : Z) : Z :=
  match lyrics with
  | [] => -1
  | _ => search_loop (S (List.length lyrics)) lyrics currentTime 0 (len lyrics - 1) (-1)
  end.

(** Properties of a transcript, indexed as the code indexes it. *)
Definition in_line (l : LyricLine) (t : Z) : Prop := startTime l <= t < endTime l.

Definition lines_valid (lyrics : list LyricLine) : Prop :=
  forall i, 0 <= i < len lyrics -> startTime (line_at lyrics i) < endTime (line_at lyrics i).

Definition sorted_by_start (lyrics : list LyricLine) : Prop :=
  forall i j, 0 <= i < j -> j < len lyrics ->
    startTime (line_at lyrics i) <= startTime (line_at lyrics j).

Definition non_overlapping (lyrics : list LyricLine) : Prop :=
  forall i j t, 0 <= i < len lyrics -> 0 <= j < len lyrics -> i <> j ->
    in_line (line_at lyrics i) t -> in_line (line_at lyrics j) t -> False.

End SegmentIndex.

(* ================================================================== *)
(** ** [src/hooks/useLoopState.ts] *)

Module LoopHook.

Inductive Mode := lyrics_mode | time_mode.

Record LoopState := mkLoopState {
  isActive : bool;
  mode : option Mode;
  startTime : Z;
  endTime : Z;
  selectedLyricIndices : list Z;
  repeatCount : Z;
  currentIteration : Z
}.

Definition initialLoopState : LoopState :=
  mkLoopState false None 0 0 [] 1 0.

Inductive LoopAction :=
| SET_MODE (m : option Mode)
| TOGGLE_LYRIC_SELECTION (i : Z)
| SET_TIME_RANGE (s e : Z)
| SET_REPEAT_COUNT (count : Z)
| START_LOOP (s e : Z)
| STOP_LOOP
| INCREMENT_ITERATION
| RESET_LOOP.

Definition is_lyrics_mode (m : option Mode) : bool :=
  match m with Some lyrics_mode => true | _ => false end.

Definition loopReducer (state : LoopState) (action : LoopAction) : LoopState :=
  match action with
  | SET_MODE m =>
      mkLoopState (isActive state) m (startTime state) (endTime state)
        (if is_lyrics_mode m then selectedLyricIndices state else [])
        (repeatCount state) (currentIteration state)
  | TOGGLE_LYRIC_SELECTION i =>
      let isSelected := existsb (Z.eqb i) (selectedLyricIndices state) in
      let newIndices :=
        if isSelected then filter (fun j => negb (j =? i)) (selectedLyricIndices state)
        else sort_by Z.leb (selectedLyricIndices state ++ [i]) in
      mkLoopState (isActive state) (mode state) (startTime state) (endTime state)
        newIndices (repeatCount state) (currentIteration state)
  | SET_TIME_RANGE s e =>
      mkLoopState (isActive state) (mode state) s e
        (selectedLyricIndices state) (repeatCount state) (currentIteration state)
  | SET_REPEAT_COUNT count =>
      mkLoopState (isActive state) (mode state) (startTime state) (endTime state)
        (selectedLyricIndices state) (Z.max 0 count) (currentIteration state)
  | START_LOOP s e =>
      mkLoopState true (mode state) s e
        (selectedLyricIndices state) (repeatCount state) 0
  | STOP_LOOP =>
      mkLoopState false (mode state) (startTime state) (endTime state)
        (selectedLyricIndices state) (repeatCount state) (currentIteration state)
  | INCREMENT_ITERATION =>
      mkLoopState (isActive state) (mode state) (startTime state) (endTime state)
        (selectedLyricIndices state) (repeatCount state) (currentIteration state + 1)
  | RESET_LOOP => initialLoopState
  end.

(** [Math.min(...xs)] / [Math.max(...xs)] on a non-empty list. *)
Definition list_min (x : Z) (xs : list Z) : Z := fold_left Z.min xs x.
Definition list_max (x : Z) (xs : list Z) : Z := fold_left Z.max xs x.

(** [selectedIndices.map(i => lyricsData.lyrics[i]).filter(Boolean)] *)
Definition selectedLines (selectedIndices : list Z) (d : LyricsData) : list LyricLine :=
  flat_map (fun i => match lookup_line (lyrics d) i with
                     | Some l => [l] | None => [] end)
           selectedIndices.

(** Returns [{ startTime, endTime }] as a pair. *)
Definition calculateTimeRangeFromLyrics (selectedIndices : list Z)
    (lyricsData : option LyricsData) : Z * Z :=
  match lyricsData, selectedIndices with
  | None, _ | _, [] => (0, 0)
  | Some d, _ =>
      match selectedLines selectedIndices d with
      | [] => (0, 0)
      | l :: ls =>
          (list_min (Types.startTime l) (map Types.startTime ls),
           list_max (Types.endTime l) (map Types.endTime ls))
      end
  end.

Definition validateTimeRange (startTime endTime duration : Z) : Z * Z :=
  let clampedStart := Z.max 0 (Z.min startTime duration) in
  let clampedEnd := Z.max (clampedStart + 1000) (Z.min endTime duration) in
  (clampedStart, clampedEnd).

(** The [startLoop] callback: its boolean result and the state after its
    dispatch (the state is unchanged when it dispatches nothing). *)
Definition startLoop (loopState : LoopState) (lyricsData : option LyricsData)
    (duration : Z) : bool * LoopState :=
  let go (s e : Z) :=
    let '(vs, ve) := validateTimeRange s e duration in
    (true, loopReducer loopState (START_LOOP vs ve)) in
  match mode loopState with
  | Some lyrics_mode =>
      let '(s, e) := calculateTimeRangeFromLyrics (selectedLyricIndices loopState) lyricsData in
      if s =? e then (false, loopState) else go s e
  | Some time_mode => go (startTime loopState) (endTime loopState)
  | None => (false, loopState)
  end.

(** [isLyricSelected(index)]: [selectedLyricIndices.includes(index)]. *)
Definition isLyricSelected (loopState : LoopState) (index : Z) : bool :=
  existsb (Z.eqb index) (selectedLyricIndices loopState).

(** [getCalculatedTimeRange(lyricsData)]. *)
Definition getCalculatedTimeRange (loopState : LoopState) (lyricsData : option LyricsData) : Z * Z :=
  match mode loopState with
  | Some lyrics_mode => calculateTimeRangeFromLyrics (selectedLyricIndices loopState) lyricsData
  | Some time_mode => (startTime loopState, endTime loopState)
  | None => (0, 0)
  end.

(** [canStartLoop(lyricsData)]. *)
Definition canStartLoop (loopState : LoopState) (lyricsData : option LyricsData) : bool :=
  match mode loopState with
  | Some lyrics_mode =>
      let '(s, e) := calculateTimeRangeFromLyrics (selectedLyricIndices loopState) lyricsData in
      s <? e
  | Some time_mode => startTime loopState <? endTime loopState
  | None => false
  end.

(** The action [startLoop] dispatches, if any: the same branches as
    [startLoop], with the dispatch left to the caller's queue. *)
Definition startLoop_action (loopState : LoopState) (lyricsData : option LyricsData)
    (duration : Z) : option LoopAction :=
  let go (s e : Z) :=
    let '(vs, ve) := validateTimeRange s e duration in Some (START_LOOP vs ve) in
  match mode loopState with
  | Some lyrics_mode =>
      let '(s, e) := calculateTimeRangeFromLyrics (selectedLyricIndices loopState) lyricsData in
      if s =? e then None else go s e
  | Some time_mode => go (startTime loopState) (endTime loopState)
  | None => None
  end.

End LoopHook.

(* ================================================================== *)
(** ** [LyricsParser.parseJSON] *)

Module Parser.

(** What [parseJSON] throws: its own [Error]s, and the [TypeError] of the
    runtime when it reads a property of [null] or calls [map] on a non-array. *)
Inductive Exn :=
| MissingMetadataOrLyrics          (* 'Invalid lyrics data: missing metadata or lyrics' *)
| InvalidMetadata                  (* 'Invalid metadata: missing title, artist, or duration' *)
| InvalidLineFields (index : Z)    (* 'Invalid lyric line at index ${index}: missing required fields' *)
| InvalidLineOrder (index : Z)     (* '... startTime must be less than endTime' *)
| TypeError.

Definition Result (A : Type) : Type := (Exn + A)%type.

Definition bind {A B} (r : Result A) (k : A -> Result B) : Result B :=
  match r with inl e => inl e | inr a => k a end.

Notation "x <- r ;; k" := (bind r (fun x => k)) (at level 61, r at next level, right associativity).

Fixpoint assoc (k : string) (fs : list (string * Json)) : option Json :=
  match fs with
  | [] => None
  | (k', v) :: fs' => if String.eqb k k' then Some v else assoc k fs'
  end.

(** [o.k]: [undefined] is [None]; reading a property of [null] throws. *)
Definition prop (o : Json) (k : string) : Result (option Json) :=
  match o with
  | JNull => inl TypeError
  | JObj fs => inr (assoc k fs)
  | _ => inr None
  end.

(** JavaScript truthiness of a property value. *)
Definition truthy (v : option Json) : bool :=
  match v with
  | None | Some JNull => false
  | Some (JBool b) => b
  | Some (JNum n) => negb (n =? 0)
  | Some (JStr s) => negb (String.eqb s EmptyString)
  | Some (JArr _) | Some (JObj _) => true
  end.

Definition as_number (v : option Json) : option Z :=
  match v with Some (JNum n) => Some n | _ => None end.

Definition as_string (v : option Json) : option string :=
  match v with Some (JStr s) => Some s | _ => None end.

(** The callback of [lyrics.map((line, index) => ...)]. *)
Definition validate_line (index : Z) (line : Json) : Result LyricLine :=
  st <- prop line "startTime" ;;
  en <- prop line "endTime" ;;
  ja <- prop line "japanese" ;;
  ro <- prop line "romaji" ;;
  eg <- prop line "english" ;;
  match as_number st, as_number en, as_string ja, as_string ro, as_string eg with
  | Some s, Some e, Some j, Some r, Some g =>
      if e <=? s then inl (InvalidLineOrder index)
      else inr (mkLine s e j r g)
  | _, _, _, _, _ => inl (InvalidLineFields index)
  end.

Fixpoint map_lines (index : Z) (lines : list Json) : Result (list LyricLine) :=
  match lines with
  | [] => inr []
  | l :: ls =>
      v <- validate_line index l ;;
      vs <- map_lines (index + 1) ls ;;
      inr (v :: vs)
  end.

Definition by_startTime (a b : LyricLine) : bool := Types.startTime a <=? Types.startTime b.

Definition parseJSON (jsonData : Json) : Result LyricsData :=
  md <- prop jsonData "metadata" ;;
  ly <- prop jsonData "lyrics" ;;
  match md, ly with
  | Some metadata, Some lyrics =>
      if negb (truthy md) || negb (truthy ly) then inl MissingMetadataOrLyrics else
      ti <- prop metadata "title" ;;
      ar <- prop metadata "artist" ;;
      du <- prop metadata "duration" ;;
      match ti, ar, as_number du with
      | Some t, Some a, Some d =>
          if negb (truthy ti) || negb (truthy ar) then inl InvalidMetadata else
          match lyrics with
          | JArr lines =>
              validatedLyrics <- map_lines 0 lines ;;
              inr (mkLyricsData (mkMetadata t a d) (sort_by by_startTime validatedLyrics))
          | _ => inl TypeError
          end
      | _, _, _ => inl InvalidMetadata
      end
  | _, _ => inl MissingMetadataOrLyrics
  end.

(** A lyric line as the claim describes it: its five fields present with
    their types, and [startTime < endTime]; [l] is the line it denotes. *)
Definition well_typed_line (v : Json) (l : LyricLine) : Prop :=
  prop v "startTime" = inr (Some (JNum (Types.startTime l))) /\
  prop v "endTime" = inr (Some (JNum (Types.endTime l))) /\
  prop v "japanese" = inr (Some (JStr (japanese l))) /\
  prop v "romaji" = inr (Some (JStr (romaji l))) /\
  prop v "english" = inr (Some (JStr (english l))) /\
  Types.startTime l < Types.endTime l.

(** A metadata object whose title is the number 1 and whose artist is
    [true]. *)
Definition loose_metadata_input : Json :=
  JObj [("metadata"%string, JObj [("title"%string, JNum 1); ("artist"%string, JBool true); ("duration"%string, JNum 6000)]);
        ("lyrics"%string, JArr [JObj [("startTime"%string, JNum 0); ("endTime"%string, JNum 2000);
                               ("japanese"%string, JStr "a"%string); ("romaji"%string, JStr "a"%string); ("english"%string, JStr "a"%string)]])].

(** The JSON document of a transcript, in the shape of the song files
    [public/data/songs/*/lyrics.json] that [parseJSON] reads. *)
Definition line_json (l : LyricLine) : Json :=
  JObj [("startTime"%string, JNum (Types.startTime l)); ("endTime"%string, JNum (Types.endTime l));
        ("japanese"%string, JStr (japanese l)); ("romaji"%string, JStr (romaji l));
        ("english"%string, JStr (english l))].

Definition lyrics_json (d : LyricsData) : Json :=
  JObj [("metadata"%string, JObj [("title"%string, title (metadata d));
                                  ("artist"%string, artist (metadata d));
                                  ("duration"%string, JNum (duration (metadata d)))]);
        ("lyrics"%string, JArr (map line_json (lyrics d)))].

End Parser.

(* ================================================================== *)
(** ** [calculateProgress] of [src/hooks/useAudioSync.ts] *)

Module Progress.

Import LoopHook.

Record IndividualLyricLoop := mkIndividualLoop {
  il_isActive : bool;
  il_startTime : Z;
  il_endTime : Z;
  il_repeatCount : Z;
  il_currentIteration : Z
}.

Definition clamp01 (q : Q) : Q := Qmax 0 (Qmin 1 q).

(** [a / b] on numbers (the model's [Q] division gives 0 where JavaScript
    gives [NaN] or an infinity; every statement below assumes [b <> 0]). *)
Definition ratio (a b : Z) : Q := inject_Z a / inject_Z b.

(** The three-way branch the source repeats for every loop kind:
    inside [[lo, hi]] the clamped ratio, before it 0, after it 1. *)
Definition windowed (lo hi currentTime : Z) : Q :=
  if (lo <=? currentTime) && (currentTime <=? hi)
  then clamp01 (ratio (currentTime - lo) (hi - lo))
  else if currentTime <? lo then 0
  else 1.

Definition loop_in_mode (loopState : option LoopState) (m : Mode) : bool :=
  match loopState with
  | Some ls =>
      isActive ls && match mode ls, m with
                     | Some lyrics_mode, lyrics_mode | Some time_mode, time_mode => true
                     | _, _ => false
                     end
  | None => false
  end.

Definition calculateProgress (loopState : option LoopState)
    (individualLyricLoop : option IndividualLyricLoop) (currentTime : Z)
    (cl : CurrentLine) : Q :=
  match line cl with
  | None => 0
  | Some l =>
      if negb (cl_isActive cl) then 0
      else if loop_in_mode loopState lyrics_mode
      then windowed (Types.startTime l) (Types.endTime l) currentTime
      else if loop_in_mode loopState time_mode
      then windowed (Types.startTime l) (Types.endTime l) currentTime
      else match individualLyricLoop with
           | Some il =>
               if il_isActive il
               then windowed (il_startTime il) (il_endTime il) currentTime
               else clamp01 (ratio (currentTime - Types.startTime l)
                                   (Types.endTime l - Types.startTime l))
           | None =>
               clamp01 (ratio (currentTime - Types.startTime l)
                              (Types.endTime l - Types.startTime l))
           end
  end.

End Progress.

(* ================================================================== *)
(** ** [findCurrentLine] of [src/hooks/useAudioSync.ts] *)

Module Sync.

Import LoopHook Progress.

(** [{ index: -1, line: null, isActive: false }] *)
Definition no_line : CurrentLine := mkCurrentLine (-1) None false.

(** [{ index: i, line: lyrics[i], isActive: active }] *)
Definition line_result (lyrics : list LyricLine) (i : Z) (active : bool) : CurrentLine :=
  mkCurrentLine i (lookup_line lyrics i) active.

(** The proximity score of the gap search: distance to the line, halved for
    a line already passed. *)
Definition proximity_score (timeToUse : Z) (line : LyricLine) : Q :=
  let score := if timeToUse <? Types.startTime line
               then inject_Z (Types.startTime line - timeToUse)
               else inject_Z (timeToUse - Types.endTime line) in
  if Types.endTime line <? timeToUse then score * (1 # 2) else score.

(** The [for] loop over the lines when a loop is active and no line contains
    the time: [inl i] is the early [return] of line [i] (time within
    [[startTime, endTime]]), [inr bestIndex] the loop's end.  [bestScore] is
    [None] for [Infinity]. *)
Fixpoint gap_search (timeToUse : Z) (lines : list LyricLine) (i bestIndex : Z)
    (bestScore : option Q) : Z + Z :=
  match lines with
  | [] => inr bestIndex
  | line :: rest =>
      if (Types.startTime line <=? timeToUse) && (timeToUse <=? Types.endTime line) then inl i
      else
        let score := proximity_score timeToUse line in
        let better := match bestScore with
                      | None => true
                      | Some b => negb (Qle_bool b score)
                      end in
        if better then gap_search timeToUse rest (i + 1) i (Some score)
        else gap_search timeToUse rest (i + 1) bestIndex bestScore
  end.

(** The first line overlapping [[loopStartTime, loopEndTime]]. *)
Fixpoint first_overlap (loopStartTime loopEndTime : Z) (lines : list LyricLine) (i : Z) : option Z :=
  match lines with
  | [] => None
  | line :: rest =>
      if (Types.startTime line <=? loopEndTime) && (loopStartTime <=? Types.endTime line)
      then Some i else first_overlap loopStartTime loopEndTime rest (i + 1)
  end.

(** The loop [for (let i = 1; ...)] keeping the line whose start is closest
    to [loopStartTime] (the first one on ties). *)
Fixpoint closest_start (loopStartTime : Z) (lines : list LyricLine) (i closestIndex closestDistance : Z) : Z :=
  match lines with
  | [] => closestIndex
  | line :: rest =>
      let distance := Z.abs (Types.startTime line - loopStartTime) in
      if distance <? closestDistance
      then closest_start loopStartTime rest (i + 1) i distance
      else closest_start loopStartTime rest (i + 1) closestIndex closestDistance
  end.

(** [for (let i = k - 1; i >= 0; i--) if (currentTime >= lyrics[i].endTime) return i]. *)
Fixpoint last_ended (currentTime : Z) (lyrics : list LyricLine) (k : nat) : option Z :=
  match k with
  | O => None
  | S k' =>
      if Types.endTime (line_at lyrics (Z.of_nat k')) <=? currentTime then Some (Z.of_nat k')
      else last_ended currentTime lyrics k'
  end.

(** The code after the loop branches: no loop is active. *)
Definition normal_path (lyrics : list LyricLine) (firstLine : LyricLine) (currentTime : Z)
    (isPlaying : bool) : CurrentLine :=
  if negb isPlaying && (currentTime <=? 0) then no_line
  else
    let foundIndex := SegmentIndex.findCurrentLineIndex lyrics currentTime in
    if 0 <=? foundIndex then line_result lyrics foundIndex true
    else
      let lastLine := line_at lyrics (len lyrics - 1) in
      if currentTime <? Types.startTime firstLine then line_result lyrics 0 false
      else if Types.endTime lastLine <? currentTime then line_result lyrics (len lyrics - 1) false
      else match last_ended currentTime lyrics (List.length lyrics) with
           | Some i => line_result lyrics i false
           | None => no_line
           end.

Definition loop_active (loopState : option LoopState) : bool :=
  match loopState with Some ls => isActive ls | None => false end.

Definition findCurrentLine (lyricsData : option LyricsData) (currentTime : Z) (isPlaying : bool)
    (loopState : option LoopState) (individualLyricLoop : option IndividualLyricLoop) : CurrentLine :=
  match lyricsData with
  | None => no_line
  | Some d =>
      let lyrics := Types.lyrics d in
      match lyrics with
      | [] => no_line
      | firstLine :: others =>
          if loop_active loopState then
            let timeToUse := currentTime in
            let loopLineIndex := SegmentIndex.findCurrentLineIndex lyrics timeToUse in
            if 0 <=? loopLineIndex then line_result lyrics loopLineIndex true
            else match gap_search timeToUse lyrics 0 (-1) None with
                 | inl i => line_result lyrics i true
                 | inr bestIndex =>
                     if 0 <=? bestIndex then line_result lyrics bestIndex true
                     else line_result lyrics 0 true
                 end
          else match individualLyricLoop with
          | Some il =>
            if il_isActive il then
              let loopStartTime := il_startTime il in
              let loopEndTime := il_endTime il in
              let loopLineIndex := SegmentIndex.findCurrentLineIndex lyrics loopStartTime in
              if 0 <=? loopLineIndex then line_result lyrics loopLineIndex true
              else match first_overlap loopStartTime loopEndTime lyrics 0 with
                   | Some i => line_result lyrics i true
                   | None =>
                       let closestIndex :=
                         closest_start loopStartTime others 1 0
                           (Z.abs (Types.startTime firstLine - loopStartTime)) in
                       line_result lyrics closestIndex true
                   end
            else normal_path lyrics firstLine currentTime isPlaying
          | None => normal_path lyrics firstLine currentTime isPlaying
          end
      end
  end.

(** What [LyricsDisplay] renders: it calls [useAudioSync] with
    [lyricsData], [currentTime] and [isPlaying] only, so [loopState] and
    [individualLyricLoop] take their defaults [null]. *)
Definition display_line (lyricsData : option LyricsData) (currentTime : Z) (isPlaying : bool) : CurrentLine :=
  findCurrentLine lyricsData currentTime isPlaying None None.

Definition display_progress (lyricsData : option LyricsData) (currentTime : Z) (isPlaying : bool) : Q :=
  calculateProgress None None currentTime (display_line lyricsData currentTime isPlaying).

(** [t] within the closed interval [[startTime, endTime]] of a line. *)
Definition closed_in (l : LyricLine) (t : Z) : Prop := Types.startTime l <= t <= Types.endTime l.

(** A line overlapping the closed interval [[lo, hi]]. *)
Definition overlaps (l : LyricLine) (lo hi : Z) : Prop :=
  Types.startTime l <= hi /\ lo <= Types.endTime l.

(** A [CurrentLine] that is either [no_line] or names an existing line of
    [lyrics] together with that line. *)
Definition names_line (lyrics : list LyricLine) (cl : CurrentLine) : Prop :=
  cl = no_line \/
  (0 <= index cl < len lyrics /\ line cl = Some (line_at lyrics (index cl))).

End Sync.

(* ================================================================== *)
(** ** [AudioPlayer]: loop region, tick handler and [seekTo] *)

Module AudioPlayer.

Record LoopRegion := mkRegion {
  startTime : Z;
  endTime : Z;
  repeatCount : Z;        (* 0 = repeat forever *)
  currentIteration : Z;
  isActive : bool
}.

(** The component state together with the state of the audio element it
    drives ([audioTime] is [audio.currentTime] in ms, [audioPaused] is
    [audio.paused]).  [hasAudio] is [audioRef.current !== null]. *)
Record Player := mkPlayer {
  loopRegion : option LoopRegion;
  isPlaying : bool;
  currentTime : Z;
  duration : Z;
  isDemoMode : bool;
  hasAudio : bool;
  audioTime : Z;
  audioPaused : bool
}.

(** Calls the code makes, in order. *)
Inductive Effect :=
| SetCurrentTime (t : Z)        (* setCurrentTime(t) *)
| OnTimeUpdate (t : Z)          (* onTimeUpdate(t): consumers notified *)
| AudioSeek (t : Z)             (* audioRef.current.currentTime = t / 1000 *)
| AudioPlay                     (* audioRef.current.play() *)
| AudioPause                    (* audioRef.current.pause() *)
| StartDemoTimer                (* startDemoTimer() *)
| SetIsPlaying (b : bool)       (* setIsPlaying(b) *)
| UpdateMediaSession            (* updateMediaSessionPlaybackState() *)
| OnLoopIteration.              (* onLoopIteration() *)

Definition set_region (p : Player) (r : option LoopRegion) : Player :=
  mkPlayer r (isPlaying p) (currentTime p) (duration p) (isDemoMode p) (hasAudio p)
    (audioTime p) (audioPaused p).

Definition set_isPlaying (p : Player) (b : bool) : Player :=
  mkPlayer (loopRegion p) b (currentTime p) (duration p) (isDemoMode p) (hasAudio p)
    (audioTime p) (audioPaused p).

Definition set_currentTime (p : Player) (t : Z) : Player :=
  mkPlayer (loopRegion p) (isPlaying p) t (duration p) (isDemoMode p) (hasAudio p)
    (audioTime p) (audioPaused p).

Definition set_audioTime (p : Player) (t : Z) : Player :=
  mkPlayer (loopRegion p) (isPlaying p) (currentTime p) (duration p) (isDemoMode p)
    (hasAudio p) t (audioPaused p).

(** [audio.play()] clears [audio.paused] synchronously. *)
Definition audio_play (p : Player) : Player :=
  mkPlayer (loopRegion p) (isPlaying p) (currentTime p) (duration p) (isDemoMode p)
    (hasAudio p) (audioTime p) false.

Definition audio_pause (p : Player) : Player :=
  mkPlayer (loopRegion p) (isPlaying p) (currentTime p) (duration p) (isDemoMode p)
    (hasAudio p) (audioTime p) true.

Definition with_iteration (r : LoopRegion) (n : Z) : LoopRegion :=
  mkRegion (startTime r) (endTime r) (repeatCount r) n (isActive r).

Definition deactivated (r : LoopRegion) : LoopRegion :=
  mkRegion (startTime r) (endTime r) (repeatCount r) (currentIteration r) false.

Definition shouldContinue (r : LoopRegion) : bool :=
  (repeatCount r =? 0) || (currentIteration r + 1 <? repeatCount r).

(** [checkLoopBoundary(time)]. *)
Definition checkLoopBoundary (time : Z) (p : Player) : Player * list Effect :=
  match loopRegion p with
  | Some r =>
      if isActive r && (endTime r <=? time) then
        if shouldContinue r then
          let newIteration := currentIteration r + 1 in
          let p1 := set_region p (Some (with_iteration r newIteration)) in
          if isDemoMode p1 then
            (set_currentTime p1 (startTime r),
             [SetCurrentTime (startTime r); OnTimeUpdate (startTime r); OnLoopIteration])
          else if hasAudio p1 then
            (set_currentTime (set_audioTime p1 (startTime r)) (startTime r),
             [AudioSeek (startTime r); SetCurrentTime (startTime r);
              OnTimeUpdate (startTime r); OnLoopIteration])
          else (p1, [OnLoopIteration])
        else
          let p1 := set_region p (Some (deactivated r)) in
          if isPlaying p1 then (set_isPlaying p1 false, [SetIsPlaying false; UpdateMediaSession])
          else (p1, [])
      else (p, [])
  | None => (p, [])
  end.

(** [handleTimeUpdate] on a ['timeupdate'] event: read the element's
    position, publish it, then run the boundary check.  (The 16 ms audio
    update timer runs the same steps with the [checkLoopBoundary] of the
    render that started it; it is not modelled.) *)
Definition handleTimeUpdate (p : Player) : Player * list Effect :=
  let time := audioTime p in
  let '(p', effs) := checkLoopBoundary time (set_currentTime p time) in
  (p', SetCurrentTime time :: OnTimeUpdate time :: effs).

(** The audio element playing on for [delta] ms (the external transport),
    before the end of the track: reaching the end (['ended']) is not
    modelled. *)
Definition advance (delta : Z) (p : Player) : Player :=
  if audioPaused p then p else set_audioTime p (audioTime p + delta).

(** [seekTo(timeInMs)].  [audio.play()] is issued here; its [then] branch
    ([startAudioUpdateTimer(); setIsPlaying(true)]) runs when the promise
    resolves and is not part of this step. *)
Definition seekTo (timeInMs : Z) (p : Player) : Player * list Effect :=
  let clampedTime := Z.max 0 (Z.min timeInMs (duration p)) in
  if isDemoMode p then
    let p1 := set_currentTime p clampedTime in
    if negb (isPlaying p)
    then (set_isPlaying p1 true,
          [SetCurrentTime clampedTime; OnTimeUpdate clampedTime;
           StartDemoTimer; SetIsPlaying true; UpdateMediaSession])
    else (p1, [SetCurrentTime clampedTime; OnTimeUpdate clampedTime])
  else if hasAudio p then
    let p1 := set_audioTime (set_currentTime p clampedTime) clampedTime in
    if negb (isPlaying p)
    then (audio_play p1, [SetCurrentTime clampedTime; OnTimeUpdate clampedTime;
                          AudioSeek clampedTime; AudioPlay])
    else (p1, [SetCurrentTime clampedTime; OnTimeUpdate clampedTime; AudioSeek clampedTime])
  else (p, []).

(** The synchronous part of [handleSpeedChange(newSpeed)]: with the audio
    element present and not in demo mode, a speed below 0.8 calls
    [audio.pause()] and leaves [isPlaying] as it is; the [play()] that
    resumes a playing element is issued later from a timer (after 50 ms on
    desktop, 250 ms on mobile, where it may be refused) and is not part of
    this step.  The playback rate itself and the speed menu are not
    modelled. *)
Definition handleSpeedChange (newSpeed : Q) (p : Player) : Player * list Effect :=
  if hasAudio p && negb (isDemoMode p) && negb (Qle_bool (8 # 10) newSpeed)
  then (audio_pause p, [AudioPause])
  else (p, []).

(** [setLoopRegionHandler(startTime, endTime, repeatCount)]. *)
Definition setLoopRegionHandler (s e n : Z) (p : Player) : Player * list Effect :=
  let p1 := set_region p (Some (mkRegion s e n 0 true)) in
  if isDemoMode p then
    if negb (isPlaying p)
    then (set_isPlaying (set_currentTime p1 s) true,
          [SetCurrentTime s; OnTimeUpdate s; StartDemoTimer; SetIsPlaying true])
    else (set_currentTime p1 s, [SetCurrentTime s; OnTimeUpdate s])
  else if hasAudio p then
    if negb (isPlaying p) then (audio_play (set_audioTime p1 s), [AudioSeek s; AudioPlay])
    else (set_audioTime p1 s, [AudioSeek s])
  else (p1, []).

(** The transport commands and loop-iteration events among the calls. *)
Definition is_seek (e : Effect) : bool :=
  match e with AudioSeek _ => true | _ => false end.

Definition is_iteration (e : Effect) : bool :=
  match e with OnLoopIteration => true | _ => false end.

Definition seeks (effs : list Effect) : list Effect := filter is_seek effs.
Definition iterations (effs : list Effect) : list Effect := filter is_iteration effs.

(** One boundary crossing: the element plays on from where it is to [over] ms
    past the loop end, and the next tick fires. *)
Definition crossing (over : Z) (p : Player) : Player :=
  match loopRegion p with
  | Some r => fst (handleTimeUpdate (advance (endTime r + over - audioTime p) p))
  | None => p
  end.

Fixpoint crossings (n : nat) (over : Z) (p : Player) : Player :=
  match n with
  | O => p
  | S n' => crossings n' over (crossing over p)
  end.

(** [clearLoopHandler]: [setLoopRegion(null)]. *)
Definition clearLoopHandler (p : Player) : Player := set_region p None.

End AudioPlayer.

(* ================================================================== *)
(** ** The loop handlers of the App component ([src/App.tsx]) *)

Module App.

(** The [useLoopState] state of the App and its [AudioPlayer]
    ([audioPlayerRef.current], [None] when not mounted). *)
Record AppState := mkApp {
  hook : LoopHook.LoopState;
  player : option AudioPlayer.Player
}.

(** The dispatches of one event handler, applied in order by [useReducer]. *)
Definition run (st : LoopHook.LoopState) (actions : list LoopHook.LoopAction) : LoopHook.LoopState :=
  fold_left LoopHook.loopReducer actions st.

(** The dispatch of [startLoop]: the callback of the render the handler
    belongs to, so it reads that render's [loopState]. *)
Definition startLoop_dispatch (st : LoopHook.LoopState) (lyricsData : option LyricsData)
    (duration : Z) : list LoopHook.LoopAction :=
  match LoopHook.startLoop_action st lyricsData duration with
  | Some a => [a]
  | None => []
  end.

(** [if (audioPlayerRef.current) audioPlayerRef.current.m(...)] *)
Definition on_player (p : option AudioPlayer.Player)
    (f : AudioPlayer.Player -> AudioPlayer.Player * list AudioPlayer.Effect) : option AudioPlayer.Player :=
  match p with Some q => Some (fst (f q)) | None => None end.

Definition handleStartTimeLoop (a : AppState) (lyricsData : option LyricsData)
    (duration startTime endTime repeatCount : Z) : AppState :=
  let st := hook a in
  let player' := on_player (player a) (AudioPlayer.setLoopRegionHandler startTime endTime repeatCount) in
  mkApp (run st ([LoopHook.SET_TIME_RANGE startTime endTime; LoopHook.SET_REPEAT_COUNT repeatCount;
                  LoopHook.SET_MODE (Some LoopHook.time_mode)]
                 ++ startLoop_dispatch st lyricsData duration))
        player'.

Definition handleStartLyricsLoop (a : AppState) (lyricsData : option LyricsData)
    (duration repeatCount : Z) : AppState :=
  let st := hook a in
  let success := fst (LoopHook.startLoop st lyricsData duration) in
  let hook' := run st ([LoopHook.SET_REPEAT_COUNT repeatCount; LoopHook.SET_MODE (Some LoopHook.lyrics_mode)]
                       ++ startLoop_dispatch st lyricsData duration) in
  if success then
    let '(s, e) := LoopHook.getCalculatedTimeRange st lyricsData in
    mkApp hook' (on_player (player a) (AudioPlayer.setLoopRegionHandler s e repeatCount))
  else mkApp hook' (player a).

Definition handleStopLoop (a : AppState) : AppState :=
  mkApp (run (hook a) [LoopHook.STOP_LOOP])
        (option_map AudioPlayer.clearLoopHandler (player a)).

Definition handleResetLoop (a : AppState) : AppState :=
  mkApp (run (hook a) [LoopHook.RESET_LOOP])
        (option_map AudioPlayer.clearLoopHandler (player a)).

Definition handleLyricSelection (a : AppState) (index : Z) (selected : bool) : AppState :=
  let st := hook a in
  let wasSelected := LoopHook.isLyricSelected st index in
  let n := List.length (LoopHook.selectedLyricIndices st) in
  let modeActions :=
    if selected && negb wasSelected && Nat.eqb n 0 then [LoopHook.SET_MODE (Some LoopHook.lyrics_mode)]
    else if negb selected && wasSelected && Nat.eqb n 1 then [LoopHook.SET_MODE None]
    else [] in
  mkApp (run st (LoopHook.TOGGLE_LYRIC_SELECTION index :: modeActions)) (player a).

(** A tick of the player with its callbacks wired as the App wires them:
    [onLoopIteration] is [handleLoopIteration], which dispatches
    [INCREMENT_ITERATION]. *)
Definition app_tick (a : AppState) : AppState :=
  match player a with
  | Some p =>
      let '(p', effs) := AudioPlayer.handleTimeUpdate p in
      mkApp (run (hook a) (map (fun _ => LoopHook.INCREMENT_ITERATION) (AudioPlayer.iterations effs)))
            (Some p')
  | None => a
  end.

End App.

(* ================================================================== *)
(** ** The concrete scenario of the specification: lines [{0,2000}],
    [{2500,4000}], [{4000,6000}] of a 6000 ms track. *)

Module Scenario.

Definition scenario_line (s e : Z) : LyricLine :=
  mkLine s e EmptyString EmptyString EmptyString.

Definition scenario_lyrics : list LyricLine :=
  [scenario_line 0 2000; scenario_line 2500 4000; scenario_line 4000 6000].

Definition scenario_data : LyricsData :=
  mkLyricsData (mkMetadata (JStr "Song"%string) (JStr "Artist"%string) 6000) scenario_lyrics.

(** Lyrics mode with the first two lines selected. *)
Definition scenario_selection : LoopHook.LoopState :=
  LoopHook.mkLoopState false (Some LoopHook.lyrics_mode) 0 0 [0; 1] 0 0.

(** A playing player whose three-pass loop over [0, 2000) has just been
    crossed by a tick at [2016]. *)
Definition scenario_region : AudioPlayer.LoopRegion := AudioPlayer.mkRegion 0 2000 3 0 true.

Definition scenario_player : AudioPlayer.Player :=
  AudioPlayer.mkPlayer (Some scenario_region) true 0 6000 false true 2016 false.

(** A paused player with audio, seeked near the end. *)
Definition scenario_paused : AudioPlayer.Player :=
  AudioPlayer.mkPlayer None false 0 6000 false true 0 true.

(** A player with audio playing at [3000] ms. *)
Definition scenario_playing : AudioPlayer.Player :=
  AudioPlayer.mkPlayer None true 3000 6000 false true 3000 false.

(** The hook with a lyrics loop over lines 0 and 1 running. *)
Definition looping_state : LoopHook.LoopState :=
  LoopHook.mkLoopState true (Some LoopHook.lyrics_mode) 0 4000 [0; 1] 0 0.

(** An individual-line loop over line 1. *)
Definition line_loop : Progress.IndividualLyricLoop := Progress.mkIndividualLoop true 2500 4000 3 0.

(** The hook in ['time'] mode over [[0, 2000]], no loop running. *)
Definition time_state : LoopHook.LoopState :=
  LoopHook.mkLoopState false (Some LoopHook.time_mode) 0 2000 [] 1 0.

(** A transcript whose second line ends where it starts. *)
Definition bad_data : LyricsData :=
  mkLyricsData (mkMetadata (JStr "Song"%string) (JStr "Artist"%string) 6000)
    [scenario_line 0 2000; scenario_line 3000 3000; scenario_line 4000 5000].

End Scenario.

(* ================================================================== *)
(** * Proofs *)

(** Turns boolean comparisons on [Z] into propositions. *)
Ltac zbool :=
  repeat match goal with
  | H : (_ && _)%bool = true |- _ => apply andb_true_iff in H; destruct H
  | H : (_ <=? _) = true |- _ => apply Z.leb_le in H
  | H : (_ <=? _) = false |- _ => apply Z.leb_gt in H
  | H : (_ <? _) = true |- _ => apply Z.ltb_lt in H
  | H : (_ <? _) = false |- _ => apply Z.ltb_ge in H
  | H : (_ =? _) = true |- _ => apply Z.eqb_eq in H
  | H : (_ =? _) = false |- _ => apply Z.eqb_neq in H
  end.

Module SegmentIndexFacts.

Import SegmentIndex.

Lemma mid_bounds (left right : Z) :
  left <= right -> left <= (left + right) / 2 <= right.
Proof.
  intro H.
  pose proof (Z.div_mod (left + right) 2 ltac:(lia)).
  pose proof (Z.mod_pos_bound (left + right) 2 ltac:(lia)).
  lia.
Qed.

Section Transcript.

Variable lyrics : list LyricLine.
Variable t : Z.

(** Whatever the loop returns is [-1] or an index whose line contains [t]. *)
Lemma search_loop_sound (fuel : nat) (left right result : Z) :
  0 <= left -> right < len lyrics -> (result = -1 \/ 0 <= result < len lyrics) ->
  let r := search_loop fuel lyrics t left right result in
  r = -1 \/ (0 <= r < len lyrics /\ in_line (line_at lyrics r) t).
Proof.
  revert left right result.
  induction fuel as [|fuel IH]; intros left right result Hl Hr Hres; simpl.
  - unfold finish. destruct (_ && _ && _) eqn:E; [|auto]. zbool.
    right. destruct Hres as [->|Hres]; [lia|]. unfold in_line; lia.
  - destruct (left <=? right) eqn:Elr.
    + zbool. pose proof (mid_bounds left right Elr) as Hm.
      destruct (_ && _) eqn:E1.
      * zbool. right. unfold in_line. lia.
      * destruct (Types.startTime _ <=? t) eqn:E2.
        -- apply IH; lia.
        -- apply IH; lia.
    + unfold finish. destruct (_ && _ && _) eqn:E; [|auto]. zbool.
      right. destruct Hres as [->|Hres]; [lia|]. unfold in_line; lia.
Qed.

Hypothesis Hsorted : sorted_by_start lyrics.
Hypothesis Hdisj : non_overlapping lyrics.
Hypothesis Hvalid : lines_valid lyrics.

(** Sorted, valid and non-overlapping: every line ends before the next ones start. *)
Lemma end_before_start (i j : Z) :
  0 <= i < j -> j < len lyrics -> Types.endTime (line_at lyrics i) <= Types.startTime (line_at lyrics j).
Proof.
  intros Hij Hj.
  destruct (Z_le_gt_dec (Types.endTime (line_at lyrics i)) (Types.startTime (line_at lyrics j)))
    as [?|Hgt]; [assumption|exfalso].
  apply (Hdisj i j (Types.startTime (line_at lyrics j))); try lia; unfold in_line.
  - pose proof (Hsorted i j Hij Hj). lia.
  - pose proof (Hvalid j ltac:(lia)). lia.
Qed.

Lemma in_line_unique (i j : Z) :
  0 <= i < len lyrics -> 0 <= j < len lyrics ->
  in_line (line_at lyrics i) t -> in_line (line_at lyrics j) t -> i = j.
Proof.
  intros Hi Hj Ii Ij.
  destruct (Z.eq_dec i j) as [|Hne]; [assumption|].
  exfalso. exact (Hdisj i j t Hi Hj Hne Ii Ij).
Qed.

Variable i : Z.
Hypothesis Hi : 0 <= i < len lyrics.
Hypothesis Hin : in_line (line_at lyrics i) t.

(** With [t] inside line [i], the loop never ends on [-1]. *)
Lemma search_loop_complete (fuel : nat) (left right : Z) :
  0 <= left -> right < len lyrics -> left <= right + 1 ->
  right - left + 1 < Z.of_nat fuel ->
  (forall k, 0 <= k < left -> Types.startTime (line_at lyrics k) <= t) ->
  (forall k, right < k < len lyrics -> t < Types.startTime (line_at lyrics k)) ->
  search_loop fuel lyrics t left right (left - 1) <> -1.
Proof.
  revert left right.
  induction fuel as [|fuel IH]; intros left right Hl Hr Hlr Hfuel Hlow Hhigh; [lia|].
  simpl. destruct (left <=? right) eqn:Elr.
  - zbool. pose proof (mid_bounds left right Elr) as Hm.
    destruct (_ && _) eqn:E1; [lia|].
    destruct (Types.startTime (line_at lyrics ((left + right) / 2)) <=? t) eqn:E2; zbool.
    + replace ((left + right) / 2) with ((left + right) / 2 + 1 - 1) at 2 by lia.
      apply IH; try lia; try assumption.
      intros k Hk. destruct (Z.eq_dec k ((left + right) / 2)) as [->|Hne]; [lia|].
      destruct (Z_lt_ge_dec k left); [apply Hlow; lia|].
      pose proof (Hsorted k ((left + right) / 2) ltac:(lia) ltac:(lia)). lia.
    + apply IH; try lia; try assumption.
      intros k Hk. destruct (Z.eq_dec k ((left + right) / 2)) as [->|Hne]; [lia|].
      pose proof (Hsorted ((left + right) / 2) k ltac:(lia) ltac:(lia)). lia.
  - zbool. unfold finish.
    assert (Hir : i <= right).
    { destruct (Z_le_gt_dec i right); [assumption|].
      pose proof (Hhigh i ltac:(lia)). unfold in_line in Hin. lia. }
    assert (Heq : i = left - 1).
    { destruct (Z.eq_dec i (left - 1)); [assumption|].
      pose proof (end_before_start i (left - 1) ltac:(lia) ltac:(lia)).
      pose proof (Hlow (left - 1) ltac:(lia)). unfold in_line in Hin. lia. }
    subst i. unfold in_line in Hin.
    destruct (0 <=? left - 1) eqn:E0; zbool; [|lia].
    destruct (Types.startTime (line_at lyrics (left - 1)) <=? t) eqn:E1; zbool; [|lia].
    destruct (t <? Types.endTime (line_at lyrics (left - 1))) eqn:E2; zbool; [|lia].
    simpl. lia.
Qed.

End Transcript.

(** C1: on a transcript whose lines are well formed ([startTime < endTime]),
    sorted ascending by [startTime] and pairwise non-overlapping as
    half-open intervals, [findCurrentLineIndex lyrics t] is the index of the
    line whose [[startTime, endTime)] contains [t]; when no line contains
    [t] (a gap, before the first line, at or after the end of the last line,
    or an empty transcript) it is [-1].  At a shared boundary only the later
    line contains [t], so the later index is returned. *)
Theorem findCurrentLineIndex_correct (lyrics : list LyricLine) (t : Z) :
  sorted_by_start lyrics -> non_overlapping lyrics -> lines_valid lyrics ->
  (forall i, 0 <= i < len lyrics -> in_line (line_at lyrics i) t ->
     findCurrentLineIndex lyrics t = i) /\
  ((forall i, 0 <= i < len lyrics -> ~ in_line (line_at lyrics i) t) ->
     findCurrentLineIndex lyrics t = -1).
Proof.
  intros Hsorted Hdisj Hvalid.
  destruct lyrics as [|l ls] eqn:El.
  - split; [intros i Hi; unfold len in Hi; simpl in Hi; lia | reflexivity].
  - rewrite <- El in *. unfold findCurrentLineIndex. rewrite El. rewrite <- El.
    assert (Hlen : 0 < len lyrics) by (subst; unfold len; simpl; lia).
    pose proof (search_loop_sound lyrics t (S (List.length lyrics)) 0 (len lyrics - 1) (-1)
                  ltac:(lia) ltac:(lia) ltac:(lia)) as Hs.
    simpl in Hs. split.
    + intros i Hi Hin.
      assert (Hc : search_loop (S (List.length lyrics)) lyrics t 0 (len lyrics - 1) (0 - 1) <> -1).
      { apply (search_loop_complete lyrics t Hsorted Hdisj Hvalid i Hi Hin);
          unfold len in *; try lia; intros k Hk; lia. }
      simpl in Hc |- *.
      destruct Hs as [Hs|[Hr Hs]]; [contradiction|].
      symmetry. exact (in_line_unique lyrics t Hdisj i _ Hi Hr Hin Hs).
    + intros Hnone. simpl.
      destruct Hs as [Hs|[Hr Hs]]; [exact Hs|].
      exfalso. exact (Hnone _ Hr Hs).
Qed.

End SegmentIndexFacts.

Module ScenarioFacts.

Import SegmentIndex Scenario.

Ltac scenario_index i :=
  unfold len in *; simpl in *;
  let H := fresh in
  assert (H : i = 0 \/ i = 1 \/ i = 2) by lia;
  destruct H as [H|[H|H]]; subst i.

Lemma scenario_sorted : sorted_by_start scenario_lyrics.
Proof.
  intros i j Hij Hj. scenario_index i; scenario_index j; simpl; lia.
Qed.

Lemma scenario_non_overlapping : non_overlapping scenario_lyrics.
Proof.
  intros i j t Hi Hj Hne. unfold in_line.
  scenario_index i; scenario_index j; simpl; lia.
Qed.

Lemma scenario_valid : lines_valid scenario_lyrics.
Proof.
  intros i Hi. scenario_index i; simpl; lia.
Qed.

End ScenarioFacts.

(** Witness of C1 on the specification's scenario: 1000 is in line 0, 4000
    (the shared boundary of lines 1 and 2) gives line 2, the gap 2200 and the
    end 6000 give [-1]. *)
Lemma findCurrentLineIndex_correct_witness :
  SegmentIndex.findCurrentLineIndex Scenario.scenario_lyrics 1000 = 0 /\
  SegmentIndex.findCurrentLineIndex Scenario.scenario_lyrics 4000 = 2 /\
  SegmentIndex.findCurrentLineIndex Scenario.scenario_lyrics 2200 = -1 /\
  SegmentIndex.findCurrentLineIndex Scenario.scenario_lyrics 6000 = -1.
Proof.
  pose proof (SegmentIndexFacts.findCurrentLineIndex_correct Scenario.scenario_lyrics 1000
                ScenarioFacts.scenario_sorted ScenarioFacts.scenario_non_overlapping
                ScenarioFacts.scenario_valid) as [H1 _].
  pose proof (SegmentIndexFacts.findCurrentLineIndex_correct Scenario.scenario_lyrics 4000
                ScenarioFacts.scenario_sorted ScenarioFacts.scenario_non_overlapping
                ScenarioFacts.scenario_valid) as [H2 _].
  pose proof (SegmentIndexFacts.findCurrentLineIndex_correct Scenario.scenario_lyrics 2200
                ScenarioFacts.scenario_sorted ScenarioFacts.scenario_non_overlapping
                ScenarioFacts.scenario_valid) as [_ H3].
  pose proof (SegmentIndexFacts.findCurrentLineIndex_correct Scenario.scenario_lyrics 6000
                ScenarioFacts.scenario_sorted ScenarioFacts.scenario_non_overlapping
                ScenarioFacts.scenario_valid) as [_ H4].
  split; [|split; [|split]].
  - apply (H1 0); [unfold len; simpl; lia | unfold SegmentIndex.in_line; simpl; lia].
  - apply (H2 2); [unfold len; simpl; lia | unfold SegmentIndex.in_line; simpl; lia].
  - apply H3. intros i Hi. unfold SegmentIndex.in_line, len in *; simpl in *.
    assert (i = 0 \/ i = 1 \/ i = 2) as [-> | [-> | ->]] by lia; simpl; lia.
  - apply H4. intros i Hi. unfold SegmentIndex.in_line, len in *; simpl in *.
    assert (i = 0 \/ i = 1 \/ i = 2) as [-> | [-> | ->]] by lia; simpl; lia.
Defined.

Module AudioPlayerFacts.

Import AudioPlayer.

Section Loop.

Variables (s e N dur over : Z).
Hypothesis Hover : 0 <= over.

(** The component while a loop region at iteration [m] plays through the
    audio element, which sits at the loop start. *)
Definition looping (m ct : Z) : Player :=
  mkPlayer (Some (mkRegion s e N m true)) true ct dur false true s false.

Lemma crossing_rewinds (m ct : Z) :
  (N = 0 \/ m + 1 < N) ->
  crossing over (looping m ct) = looping (m + 1) s.
Proof.
  intros HN. unfold crossing, looping, advance, handleTimeUpdate. cbn.
  replace (s + (e + over - s)) with (e + over) by lia.
  destruct (e <=? e + over) eqn:E; zbool; [|lia].
  unfold shouldContinue. cbn.
  destruct HN as [->|HN].
  - reflexivity.
  - destruct (N =? 0) eqn:E0; [reflexivity|].
    destruct (m + 1 <? N) eqn:E1; zbool; [reflexivity|lia].
Qed.

Lemma crossing_completes (m ct : Z) :
  N <> 0 -> N <= m + 1 ->
  crossing over (looping m ct) =
  mkPlayer (Some (mkRegion s e N m false)) false (e + over) dur false true (e + over) false.
Proof.
  intros HN Hm. unfold crossing, looping, advance, handleTimeUpdate. cbn.
  replace (s + (e + over - s)) with (e + over) by lia.
  destruct (e <=? e + over) eqn:E; zbool; [|lia].
  unfold shouldContinue. cbn.
  destruct (N =? 0) eqn:E0; zbool; [lia|].
  destruct (m + 1 <? N) eqn:E1; zbool; [lia|reflexivity].
Qed.

Lemma crossings_looping (k : nat) (m ct : Z) :
  (N = 0 \/ m + Z.of_nat k < N) ->
  exists ct', crossings k over (looping m ct) = looping (m + Z.of_nat k) ct'.
Proof.
  revert m ct. induction k as [|k IH]; intros m ct HN.
  - exists ct. simpl. rewrite Z.add_0_r. reflexivity.
  - simpl. rewrite crossing_rewinds by lia.
    destruct (IH (m + 1) s) as [ct' Hct']; [lia|].
    exists ct'. rewrite Hct'. f_equal. lia.
Qed.

End Loop.

Lemma crossings_last (n : nat) (over : Z) (p : Player) :
  crossings (S n) over p = crossing over (crossings n over p).
Proof.
  revert p. induction n as [|n IH]; intros p; [reflexivity|].
  change (crossings (S (S n)) over p) with (crossings (S n) over (crossing over p)).
  rewrite IH. reflexivity.
Qed.

(** With a finite [repeatCount N >= 1], the first [N - 1] crossings each
    rewind (the iteration counter reaches [N - 1]) and the [N]th deactivates
    the region and clears [isPlaying]; the audio element is never paused.
    With [repeatCount = 0] every crossing rewinds. *)
Lemma loop_repeat_count (s e N dur ct over : Z) :
  1 <= N -> 0 <= over ->
  (forall k : nat, Z.of_nat k < N ->
     exists ct', crossings k over (looping s e N dur 0 ct) = looping s e N dur (Z.of_nat k) ct') /\
  crossings (Z.to_nat N) over (looping s e N dur 0 ct) =
    mkPlayer (Some (mkRegion s e N (N - 1) false)) false (e + over) dur false true (e + over) false.
Proof.
  intros HN Hover. split.
  - intros k Hk. destruct (crossings_looping s e N dur over Hover k 0 ct ltac:(lia)) as [ct' H].
    exists ct'. rewrite H. reflexivity.
  - replace (Z.to_nat N) with (S (Z.to_nat (N - 1))) by lia.
    rewrite crossings_last.
    destruct (crossings_looping s e N dur over Hover (Z.to_nat (N - 1)) 0 ct ltac:(lia)) as [ct' H].
    rewrite H. rewrite crossing_completes by lia.
    replace (0 + Z.of_nat (Z.to_nat (N - 1))) with (N - 1) by lia. reflexivity.
Qed.

Lemma loop_infinite (s e dur ct over : Z) (k : nat) :
  0 <= over ->
  exists ct', crossings k over (looping s e 0 dur 0 ct) = looping s e 0 dur (Z.of_nat k) ct'.
Proof.
  intros Hover. apply (crossings_looping s e 0 dur over Hover k 0 ct). lia.
Qed.

(** C2: the specification's scenario [startLoop(0, 2000, 3)] with the audio
    element playing, then three ticks past 2000 ms.  The region ends
    inactive with [currentIteration = 2] and [isPlaying] cleared, but the
    completion branch of [checkLoopBoundary] never calls
    [audioRef.current.pause()]: the audio element is still playing. *)
Theorem loop_scenario_audio_not_paused :
  let p0 := fst (setLoopRegionHandler 0 2000 3 (mkPlayer None true 0 6000 false true 0 false)) in
  let p3 := crossings 3 16 p0 in
  loopRegion p3 = Some (mkRegion 0 2000 3 2 false) /\
  isPlaying p3 = false /\
  audioPaused p3 = false.
Proof. vm_compute. auto. Qed.

(** C3: on the audio path, a tick at any time at or past [endTime] of an
    active region gives the same result whatever the overshoot; it issues
    exactly one seek to [startTime] and one iteration event (and the
    counter goes up by exactly one), or, on the last pass, no seek, no
    iteration and a deactivated region.  The next tick reads the element
    back at [startTime], before [endTime], and rewinds nothing more. *)
Theorem checkLoopBoundary_single_rewind (p : Player) (r : LoopRegion) (time : Z) :
  loopRegion p = Some r -> isActive r = true -> endTime r <= time ->
  isDemoMode p = false -> hasAudio p = true ->
  (forall time', endTime r <= time' -> checkLoopBoundary time' p = checkLoopBoundary time p) /\
  (shouldContinue r = true ->
     seeks (snd (checkLoopBoundary time p)) = [AudioSeek (startTime r)] /\
     iterations (snd (checkLoopBoundary time p)) = [OnLoopIteration] /\
     loopRegion (fst (checkLoopBoundary time p)) = Some (with_iteration r (currentIteration r + 1)) /\
     audioTime (fst (checkLoopBoundary time p)) = startTime r /\
     (startTime r < endTime r ->
        seeks (snd (handleTimeUpdate (fst (checkLoopBoundary time p)))) = [] /\
        iterations (snd (handleTimeUpdate (fst (checkLoopBoundary time p)))) = [])) /\
  (shouldContinue r = false ->
     seeks (snd (checkLoopBoundary time p)) = [] /\
     iterations (snd (checkLoopBoundary time p)) = [] /\
     loopRegion (fst (checkLoopBoundary time p)) = Some (deactivated r)).
Proof.
  intros Hr Ha Ht Hd Hh.
  destruct p as [reg pl ct du dm ha at0 ap]; cbn in *; subst reg dm ha.
  unfold checkLoopBoundary; cbn. rewrite Ha.
  assert (Hle : forall x, endTime r <= x -> (endTime r <=? x) = true)
    by (intros x Hx; apply Z.leb_le; exact Hx).
  rewrite (Hle time Ht). cbn.
  split; [intros time' Ht'; rewrite (Hle time' Ht'); reflexivity|].
  destruct (shouldContinue r) eqn:Hc; cbn.
  - split; [|discriminate].
    intros _. do 4 (split; [reflexivity|]). intros Hse.
    unfold handleTimeUpdate, checkLoopBoundary; cbn.
    destruct (endTime r <=? startTime r) eqn:E; zbool; [lia|].
    rewrite andb_false_r. cbn. split; reflexivity.
  - split; [discriminate|].
    intros _. destruct pl; cbn; repeat split.
Qed.

(** C6 (as the code has it): [seekTo(t)] (demo mode or an audio element
    present, duration not negative) first sets the tracked position to [t]
    clamped to [[0, duration]] and notifies [onTimeUpdate], and only then
    issues the position command to the element.  Whether it starts playback
    is decided by the component's [isPlaying] flag, not by the element:
    when [isPlaying] is false it starts playback ([audio.play()], or the
    demo timer); when [isPlaying] is true it issues neither, and the
    element's paused state is left as it was. *)
Theorem seekTo_updates_then_plays (p : Player) (t : Z) :
  (isDemoMode p = true \/ hasAudio p = true) -> 0 <= duration p ->
  let c := Z.max 0 (Z.min t (duration p)) in
  0 <= c <= duration p /\
  currentTime (fst (seekTo t p)) = c /\
  exists rest, snd (seekTo t p) = SetCurrentTime c :: OnTimeUpdate c :: rest /\
    (isDemoMode p = false -> hd_error rest = Some (AudioSeek c) /\ audioTime (fst (seekTo t p)) = c) /\
    (isPlaying p = false ->
       (isDemoMode p = true /\ In StartDemoTimer rest /\ isPlaying (fst (seekTo t p)) = true) \/
       (isDemoMode p = false /\ In AudioPlay rest /\ audioPaused (fst (seekTo t p)) = false)) /\
    (isPlaying p = true ->
       ~ In AudioPlay rest /\ ~ In StartDemoTimer rest /\
       audioPaused (fst (seekTo t p)) = audioPaused p).
Proof.
  intros Hmode Hdur c.
  destruct p as [reg pl ct du dm ha at0 ap]; cbn in *.
  split; [unfold c; lia|].
  unfold seekTo; cbn. fold c.
  destruct dm; cbn.
  - destruct pl; cbn; (split; [reflexivity|]); eexists; (split; [reflexivity|]);
      (split; [discriminate|]); split; try discriminate; intros _.
    + cbn. intuition discriminate.
    + left; cbn; auto 6.
  - destruct Hmode as [Hmode|Hmode]; [discriminate|]. subst ha.
    destruct pl; cbn; (split; [reflexivity|]); eexists; (split; [reflexivity|]);
      (split; [intros _; split; reflexivity|]); split; try discriminate; intros _.
    + cbn. intuition discriminate.
    + right. cbn. auto 6.
Qed.

(** C6 fails as stated ("whenever the transport is paused, seekTo also
    starts playback"): the element can be paused while [isPlaying] is true.
    A speed change below 0.8 on the playing [scenario_playing] pauses the
    element and leaves [isPlaying] true (the deferred [play()] may then be
    refused on mobile); a [seekTo(5999)] in that state issues no
    [audio.play()] and the element stays paused. *)
Lemma seekTo_paused_element_not_played :
  let p := fst (handleSpeedChange (1 # 2) Scenario.scenario_playing) in
  audioPaused p = true /\ isPlaying p = true /\
  ~ In AudioPlay (snd (seekTo 5999 p)) /\ audioPaused (fst (seekTo 5999 p)) = true.
Proof.
  cbv zeta. vm_compute. intuition discriminate.
Qed.

End AudioPlayerFacts.

Module LoopHookFacts.

Import LoopHook.

Lemma list_min_le (x : Z) (xs : list Z) : forall y, In y (x :: xs) -> list_min x xs <= y.
Proof.
  unfold list_min. revert x. induction xs as [|z zs IH]; intros x y Hy; simpl in *.
  - destruct Hy as [->|[]]; lia.
  - destruct Hy as [->|[->|Hy]].
    + pose proof (IH (Z.min y z) (Z.min y z) (or_introl eq_refl)). lia.
    + pose proof (IH (Z.min x y) (Z.min x y) (or_introl eq_refl)). lia.
    + apply IH. right. exact Hy.
Qed.

Lemma list_min_in (x : Z) (xs : list Z) : In (list_min x xs) (x :: xs).
Proof.
  unfold list_min. revert x. induction xs as [|z zs IH]; intros x; simpl; [auto|].
  destruct (IH (Z.min x z)) as [H|H]; [|auto].
  rewrite <- H. destruct (Z.min_spec x z) as [[_ ->]|[_ ->]]; auto.
Qed.

Lemma list_max_ge (x : Z) (xs : list Z) : forall y, In y (x :: xs) -> y <= list_max x xs.
Proof.
  unfold list_max. revert x. induction xs as [|z zs IH]; intros x y Hy; simpl in *.
  - destruct Hy as [->|[]]; lia.
  - destruct Hy as [->|[->|Hy]].
    + pose proof (IH (Z.max y z) (Z.max y z) (or_introl eq_refl)). lia.
    + pose proof (IH (Z.max x y) (Z.max x y) (or_introl eq_refl)). lia.
    + apply IH. right. exact Hy.
Qed.

Lemma list_max_in (x : Z) (xs : list Z) : In (list_max x xs) (x :: xs).
Proof.
  unfold list_max. revert x. induction xs as [|z zs IH]; intros x; simpl; [auto|].
  destruct (IH (Z.max x z)) as [H|H]; [|auto].
  rewrite <- H. destruct (Z.max_spec x z) as [[_ ->]|[_ ->]]; auto.
Qed.

(** C7: in ['lyrics'] mode, [startLoop] derives the range from the selected
    lines (those of the selected indices that exist): its start is the least
    [startTime] and its end the greatest [endTime] among them.  It returns
    [false] and leaves the state as it was when the selection is empty or the
    derived range has zero width; otherwise it dispatches [START_LOOP] with the
    validated range (the loop becomes active) and returns [true]. *)
Theorem startLoop_lyrics_mode (st : LoopState) (lyricsData : option LyricsData) (duration : Z) :
  mode st = Some lyrics_mode ->
  let range := calculateTimeRangeFromLyrics (selectedLyricIndices st) lyricsData in
  (forall d, lyricsData = Some d -> selectedLines (selectedLyricIndices st) d <> [] ->
     (forall l, In l (selectedLines (selectedLyricIndices st) d) ->
        fst range <= Types.startTime l /\ Types.endTime l <= snd range) /\
     In (fst range) (map Types.startTime (selectedLines (selectedLyricIndices st) d)) /\
     In (snd range) (map Types.endTime (selectedLines (selectedLyricIndices st) d))) /\
  (selectedLyricIndices st = [] -> startLoop st lyricsData duration = (false, st)) /\
  (fst range = snd range -> startLoop st lyricsData duration = (false, st)) /\
  (fst range <> snd range ->
     startLoop st lyricsData duration =
       (true, loopReducer st (START_LOOP (fst (validateTimeRange (fst range) (snd range) duration))
                                         (snd (validateTimeRange (fst range) (snd range) duration)))) /\
     isActive (snd (startLoop st lyricsData duration)) = true).
Proof.
  intros Hmode range.
  assert (Hstart : startLoop st lyricsData duration =
            if fst range =? snd range then (false, st)
            else (true, loopReducer st (START_LOOP (fst (validateTimeRange (fst range) (snd range) duration))
                                                   (snd (validateTimeRange (fst range) (snd range) duration))))).
  { unfold startLoop. rewrite Hmode. fold range. destruct range as [a b]. cbn.
    destruct (a =? b); [reflexivity|]. unfold validateTimeRange. reflexivity. }
  split; [|split; [|split]].
  - intros d Hd Hne. unfold range, calculateTimeRangeFromLyrics. subst lyricsData.
    destruct (selectedLyricIndices st) as [|i is]; [simpl in Hne; congruence|].
    destruct (selectedLines (i :: is) d) as [|l0 ls]; [congruence|]. cbn.
    split; [|split].
    + intros l Hl. split.
      * apply list_min_le. destruct Hl as [->|Hl]; [left; reflexivity|right; apply in_map; exact Hl].
      * apply list_max_ge. destruct Hl as [->|Hl]; [left; reflexivity|right; apply in_map; exact Hl].
    + apply list_min_in.
    + apply list_max_in.
  - intros Hnil. rewrite Hstart. unfold range, calculateTimeRangeFromLyrics. rewrite Hnil.
    destruct lyricsData; reflexivity.
  - intros Heq. rewrite Hstart. rewrite Heq, Z.eqb_refl. reflexivity.
  - intros Hne. rewrite Hstart. destruct (fst range =? snd range) eqn:E; zbool; [contradiction|].
    split; reflexivity.
Qed.

(** C4 (as the code has it): [validateTimeRange] always returns a span of at
    least 1000 ms and, for a duration that is not negative, a start within
    [[0, duration]] and an end that is not negative; the end is within the
    duration when [start + 1000 <= duration], and is [start + 1000], past the
    duration, otherwise. *)
Theorem validateTimeRange_span (startTime endTime duration : Z) :
  0 <= duration ->
  let range := validateTimeRange startTime endTime duration in
  1000 <= snd range - fst range /\
  0 <= fst range <= duration /\
  0 <= snd range /\
  (fst range + 1000 <= duration -> snd range <= duration) /\
  (duration < fst range + 1000 -> snd range = fst range + 1000).
Proof.
  intros Hd. unfold validateTimeRange. cbn. lia.
Qed.

(** C4 fails as stated: with the start 500 ms before the end of a 6000 ms
    track, the minimum span pushes the end to 6500, past the duration. *)
Lemma validateTimeRange_end_past_duration :
  validateTimeRange 5500 6000 6000 = (5500, 6500) /\
  ~ (0 <= snd (validateTimeRange 5500 6000 6000) <= 6000).
Proof.
  split; [reflexivity|]. cbn. lia.
Qed.

(** C9: [STOP_LOOP] clears [isActive] and leaves every other field as it was. *)
Theorem stopLoop_frame (st : LoopState) :
  loopReducer st STOP_LOOP =
  mkLoopState false (mode st) (startTime st) (endTime st)
    (selectedLyricIndices st) (repeatCount st) (currentIteration st).
Proof. reflexivity. Qed.

(** C10: [SET_REPEAT_COUNT] stores [max(0, count)]; a negative count is
    stored as 0, the value the loop engine treats as "repeat forever": a
    region configured with it rewinds on every crossing and never
    deactivates. *)
Theorem setRepeatCount_clamps (st : LoopState) (count : Z) :
  repeatCount (loopReducer st (SET_REPEAT_COUNT count)) = Z.max 0 count /\
  (count < 0 ->
     repeatCount (loopReducer st (SET_REPEAT_COUNT count)) = 0 /\
     forall (s e dur ct over : Z) (k : nat), 0 <= over ->
       exists ct',
         AudioPlayer.crossings k over
           (AudioPlayerFacts.looping s e (repeatCount (loopReducer st (SET_REPEAT_COUNT count))) dur 0 ct) =
         AudioPlayerFacts.looping s e (repeatCount (loopReducer st (SET_REPEAT_COUNT count))) dur
           (Z.of_nat k) ct').
Proof.
  split; [reflexivity|]. intros Hneg.
  assert (H0 : repeatCount (loopReducer st (SET_REPEAT_COUNT count)) = 0) by (cbn; lia).
  split; [exact H0|]. rewrite H0.
  intros s e dur ct over k Hover. apply AudioPlayerFacts.loop_infinite. exact Hover.
Qed.

End LoopHookFacts.

Module ProgressFacts.

Import LoopHook Progress.

Lemma ratio_neg (a b : Z) : a < 0 -> 0 < b -> (ratio a b < 0)%Q.
Proof.
  intros Ha Hb. destruct b as [|b|b]; try lia.
  unfold ratio, Qlt, Qdiv, Qinv, inject_Z, Qmult; simpl. lia.
Qed.

Lemma ratio_gt1 (a b : Z) : 0 < b < a -> (1 < ratio a b)%Q.
Proof.
  intros Hab. destruct b as [|b|b]; try lia.
  unfold ratio, Qlt, Qdiv, Qinv, inject_Z, Qmult; simpl. lia.
Qed.

Lemma clamp01_neg (q : Q) : (q < 0)%Q -> clamp01 q = 0%Q.
Proof.
  intros Hq. unfold clamp01, Qmax, Qmin, GenericMinMax.gmax, GenericMinMax.gmin.
  assert (H1 : (1 ?= q)%Q = Gt).
  { apply Qgt_alt. apply Qlt_trans with 0%Q; [exact Hq|reflexivity]. }
  rewrite H1.
  assert (H0 : (0 ?= q)%Q = Gt) by (apply Qgt_alt; exact Hq).
  rewrite H0. reflexivity.
Qed.

Lemma clamp01_gt1 (q : Q) : (1 < q)%Q -> clamp01 q = 1%Q.
Proof.
  intros Hq. unfold clamp01, Qmax, Qmin, GenericMinMax.gmax, GenericMinMax.gmin.
  assert (H1 : (1 ?= q)%Q = Lt) by (apply Qlt_alt; exact Hq).
  rewrite H1. reflexivity.
Qed.

(** For a non-empty window the three-way branch is the clamped ratio. *)
Lemma windowed_clamp (lo hi t : Z) :
  lo < hi -> windowed lo hi t = clamp01 (ratio (t - lo) (hi - lo)).
Proof.
  intros Hlh. unfold windowed.
  destruct (lo <=? t) eqn:E1; destruct (t <=? hi) eqn:E2; cbn; [reflexivity| | |];
    zbool.
  - destruct (t <? lo) eqn:E3; zbool; [lia|].
    symmetry. apply clamp01_gt1, ratio_gt1. lia.
  - destruct (t <? lo) eqn:E3; zbool; [|lia].
    symmetry. apply clamp01_neg, ratio_neg; lia.
  - destruct (t <? lo) eqn:E3; zbool; [|lia].
    symmetry. apply clamp01_neg, ratio_neg; lia.
Qed.

(** C5 (as the code has it): for a missing or inactive current line the
    progress is 0.  For an active current line [l] with
    [startTime < endTime]: while the hook's loop is active in ['lyrics'] or
    ['time'] mode the progress is the line-local clamped ratio, the same as
    without a loop; while no such loop is active but an individual-line loop
    (with [startTime < endTime]) is, the progress is the clamped ratio
    against that loop's own bounds; with neither, the line-local clamped
    ratio. *)
Theorem calculateProgress_cases (loopState : option LoopState)
    (il : option IndividualLyricLoop) (t : Z) (cl : CurrentLine) :
  ((line cl = None \/ cl_isActive cl = false) -> calculateProgress loopState il t cl = 0%Q) /\
  (forall l, line cl = Some l -> cl_isActive cl = true -> Types.startTime l < Types.endTime l ->
   let line_local := clamp01 (ratio (t - Types.startTime l) (Types.endTime l - Types.startTime l)) in
   ((loop_in_mode loopState lyrics_mode = true \/ loop_in_mode loopState time_mode = true) ->
      calculateProgress loopState il t cl = line_local) /\
   (loop_in_mode loopState lyrics_mode = false -> loop_in_mode loopState time_mode = false ->
      forall i, il = Some i -> il_isActive i = true -> il_startTime i < il_endTime i ->
      calculateProgress loopState il t cl =
        clamp01 (ratio (t - il_startTime i) (il_endTime i - il_startTime i))) /\
   (loop_in_mode loopState lyrics_mode = false -> loop_in_mode loopState time_mode = false ->
      (forall i, il = Some i -> il_isActive i = false) ->
      calculateProgress loopState il t cl = line_local)).
Proof.
  split.
  - intros [H|H]; unfold calculateProgress; rewrite ?H; [reflexivity|].
    destruct (line cl); reflexivity.
  - intros l Hline Hact Hl line_local. unfold calculateProgress. rewrite Hline, Hact. cbn [negb].
    split; [|split].
    + intros [H|H]; rewrite H; [|destruct (loop_in_mode loopState lyrics_mode)];
        apply windowed_clamp; exact Hl.
    + intros H1 H2 i Hi Ha Hi2. rewrite H1, H2, Hi, Ha. apply windowed_clamp. exact Hi2.
    + intros H1 H2 Hnone. rewrite H1, H2.
      destruct il as [i|]; [|reflexivity].
      rewrite (Hnone i eq_refl). reflexivity.
Qed.

(** C5 fails as stated: line [{0, 2000}] is current at 1500 ms while an
    individual-line loop over [{1000, 3000}] is active; the code reports
    progress 1/4 (against the loop), the line-local value is 3/4. *)
Lemma calculateProgress_individual_loop_bounds :
  let l := Scenario.scenario_line 0 2000 in
  let cl := mkCurrentLine 0 (Some l) true in
  (calculateProgress None (Some (mkIndividualLoop true 1000 3000 1 0)) 1500 cl == 1 # 4)%Q /\
  ~ (calculateProgress None (Some (mkIndividualLoop true 1000 3000 1 0)) 1500 cl ==
     clamp01 (ratio (1500 - 0) (2000 - 0)))%Q.
Proof.
  split; [vm_compute; reflexivity|].
  vm_compute. discriminate.
Qed.

End ProgressFacts.

Module ParserFacts.

Import Parser.

(** The stable insertion sort sorts and permutes. *)
Section Sort.

Variable A : Type.
Variable key : A -> Z.

Definition key_le (a b : A) : bool := key a <=? key b.

Lemma insert_by_perm (x : A) (l : list A) : Permutation (x :: l) (insert_by key_le x l).
Proof.
  induction l as [|y ys IH]; simpl; [reflexivity|].
  destruct (key_le x y); [reflexivity|].
  rewrite perm_swap. constructor. exact IH.
Qed.

Lemma sort_by_perm (l : list A) : Permutation l (sort_by key_le l).
Proof.
  induction l as [|x xs IH]; simpl; [reflexivity|].
  rewrite <- insert_by_perm. constructor. exact IH.
Qed.

Definition le_key (a b : A) : Prop := key a <= key b.

Lemma insert_by_sorted (x : A) (l : list A) :
  Sorted le_key l -> Sorted le_key (insert_by key_le x l).
Proof.
  induction l as [|y ys IH]; intros Hs; simpl.
  - repeat constructor.
  - unfold key_le at 1. destruct (key x <=? key y) eqn:E; zbool.
    + constructor; [exact Hs|constructor; exact E].
    + apply Sorted_inv in Hs as [Hys Hhd].
      constructor; [apply IH; exact Hys|].
      destruct ys as [|z zs]; simpl.
      * constructor. unfold le_key. lia.
      * unfold key_le at 1. destruct (key x <=? key z); constructor; unfold le_key.
        -- lia.
        -- inversion Hhd; assumption.
Qed.

Lemma sort_by_sorted (l : list A) : Sorted le_key (sort_by key_le l).
Proof.
  induction l as [|x xs IH]; simpl; [constructor|].
  apply insert_by_sorted. exact IH.
Qed.

End Sort.

Lemma validate_line_ok (index : Z) (v : Json) (l : LyricLine) :
  validate_line index v = inr l <-> well_typed_line v l.
Proof.
  unfold validate_line, well_typed_line, bind.
  split.
  - destruct (prop v "startTime") as [e|st] eqn:E1; [discriminate|].
    destruct (prop v "endTime") as [e|en] eqn:E2; [discriminate|].
    destruct (prop v "japanese") as [e|ja] eqn:E3; [discriminate|].
    destruct (prop v "romaji") as [e|ro] eqn:E4; [discriminate|].
    destruct (prop v "english") as [e|eg] eqn:E5; [discriminate|].
    destruct st as [[]|]; try discriminate; destruct en as [[]|]; try discriminate;
    destruct ja as [[]|]; try discriminate; destruct ro as [[]|]; try discriminate;
    destruct eg as [[]|]; try discriminate; cbn.
    destruct (_ <=? _) eqn:E; zbool; [discriminate|].
    intros H. injection H as <-. cbn. repeat split; assumption.
  - intros (E1 & E2 & E3 & E4 & E5 & Hlt).
    rewrite E1, E2, E3, E4, E5. cbn.
    destruct (Types.endTime l <=? Types.startTime l) eqn:E; zbool; [lia|].
    destruct l; reflexivity.
Qed.

Lemma map_lines_ok (lines : list Json) : forall (index : Z) (vs : list LyricLine),
  map_lines index lines = inr vs <-> Forall2 well_typed_line lines vs.
Proof.
  induction lines as [|v vs0 IH]; intros index vs; simpl.
  - split; [intros H; injection H as <-; constructor|intros H; inversion H; reflexivity].
  - unfold bind at 1. split.
    + destruct (validate_line index v) as [e|l] eqn:E; [discriminate|].
      unfold bind. destruct (map_lines (index + 1) vs0) as [e|ls] eqn:E'; [discriminate|].
      intros H. injection H as <-. constructor.
      * apply (validate_line_ok index). exact E.
      * apply (IH (index + 1)). exact E'.
    + intros H. inversion H as [|v' l ys ls Hv Hls]; subst.
      apply (validate_line_ok index) in Hv. rewrite Hv. unfold bind.
      apply (IH (index + 1)) in Hls. rewrite Hls. reflexivity.
Qed.

(** C8 (as the code has it): [parseJSON] succeeds exactly when [metadata] is
    present and truthy, [lyrics] is an array, [metadata.title] and
    [metadata.artist] are present and truthy (of any type),
    [metadata.duration] is a number and every line has numeric
    [startTime] and [endTime], string [japanese], [romaji] and [english] and
    [startTime < endTime]; its result holds the validated lines, reordered
    ascending by [startTime]. Any other input gives an error and no
    result. *)
Theorem parseJSON_accepts (jsonData : Json) (d : LyricsData) :
  parseJSON jsonData = inr d <->
  exists metadata lines t a dur ls,
    prop jsonData "metadata" = inr (Some metadata) /\ truthy (Some metadata) = true /\
    prop jsonData "lyrics" = inr (Some (JArr lines)) /\
    prop metadata "title" = inr (Some t) /\ truthy (Some t) = true /\
    prop metadata "artist" = inr (Some a) /\ truthy (Some a) = true /\
    prop metadata "duration" = inr (Some (JNum dur)) /\
    Forall2 well_typed_line lines ls /\
    d = mkLyricsData (mkMetadata t a dur) (sort_by by_startTime ls) /\
    Sorted (fun x y => Types.startTime x <= Types.startTime y) (lyrics d) /\
    Permutation ls (lyrics d).
Proof.
  split.
  - unfold parseJSON, bind.
    destruct (prop jsonData "metadata") as [e|md] eqn:E1; [discriminate|].
    destruct (prop jsonData "lyrics") as [e|ly] eqn:E2; [discriminate|].
    destruct md as [m|]; [|discriminate].
    destruct ly as [lv|]; [|discriminate].
    destruct (truthy (Some m)) eqn:T1; [|discriminate].
    destruct (truthy (Some lv)) eqn:T2; [|discriminate]. cbn [negb orb].
    destruct (prop m "title") as [e|ti] eqn:E3; [discriminate|].
    destruct (prop m "artist") as [e|ar] eqn:E4; [discriminate|].
    destruct (prop m "duration") as [e|du] eqn:E5; [discriminate|].
    destruct ti as [t|]; [|discriminate].
    destruct ar as [a|]; [|discriminate].
    destruct du as [[| |dur| | |]|]; try discriminate. cbn [as_number].
    destruct (truthy (Some t)) eqn:T3; [|discriminate].
    destruct (truthy (Some a)) eqn:T4; [|discriminate]. cbn [negb orb].
    destruct lv as [| | | |lines|]; try discriminate.
    destruct (map_lines 0 lines) as [e|ls] eqn:E6; [discriminate|].
    intros H. injection H as <-.
    exists m, lines, t, a, dur, ls.
    do 8 (split; [first [reflexivity | assumption]|]).
    split; [apply (map_lines_ok lines 0); exact E6|].
    split; [reflexivity|]. cbn [lyrics]. split.
    + exact (sort_by_sorted LyricLine Types.startTime ls).
    + exact (sort_by_perm LyricLine Types.startTime ls).
  - intros (m & lines & t & a & dur & ls & E1 & T1 & E2 & E3 & T3 & E4 & T4 & E5 & Hls & -> & _).
    unfold parseJSON, bind. rewrite E1, E2, T1. cbn [truthy negb orb].
    rewrite E3, E4, E5, T3, T4. cbn [as_number negb orb].
    apply (map_lines_ok lines 0) in Hls. rewrite Hls. reflexivity.
Qed.

(** C8 fails as stated: a title and an artist of the wrong type are
    not rejected; the load succeeds and keeps them. *)
Lemma parseJSON_accepts_untyped_metadata :
  exists d, parseJSON loose_metadata_input = inr d /\
    title (metadata d) = JNum 1 /\ artist (metadata d) = JBool true.
Proof.
  eexists. split; [vm_compute; reflexivity|]. split; reflexivity.
Qed.

End ParserFacts.

(* ================================================================== *)
(** ** The theorems at concrete inputs *)

Module Witnesses.

Import Scenario.

Lemma checkLoopBoundary_single_rewind_witness :
  AudioPlayer.endTime scenario_region <= 2016 /\
  AudioPlayer.seeks (snd (AudioPlayer.checkLoopBoundary 2016 scenario_player)) = [AudioPlayer.AudioSeek 0].
Proof.
  split; [simpl; lia|].
  destruct (AudioPlayerFacts.checkLoopBoundary_single_rewind scenario_player scenario_region 2016
              eq_refl eq_refl ltac:(simpl; lia) eq_refl eq_refl) as [_ [Hc _]].
  exact (proj1 (Hc eq_refl)).
Defined.

Lemma validateTimeRange_span_witness :
  0 <= 6000 /\
  1000 <= snd (LoopHook.validateTimeRange 5500 6000 6000) - fst (LoopHook.validateTimeRange 5500 6000 6000).
Proof.
  split; [lia|].
  exact (proj1 (LoopHookFacts.validateTimeRange_span 5500 6000 6000 ltac:(lia))).
Defined.

Lemma calculateProgress_cases_witness :
  Progress.calculateProgress None None 500 (mkCurrentLine 0 (Some (scenario_line 0 2000)) false) = 0%Q /\
  Progress.calculateProgress (Some looping_state) None 500
    (mkCurrentLine 0 (Some (scenario_line 0 2000)) true) = Progress.clamp01 (Progress.ratio 500 2000) /\
  Progress.calculateProgress None (Some line_loop) 3000
    (mkCurrentLine 1 (Some (scenario_line 2800 3200)) true) = Progress.clamp01 (Progress.ratio 500 1500) /\
  Progress.calculateProgress None None 500 (mkCurrentLine 0 (Some (scenario_line 0 2000)) true) =
  Progress.clamp01 (Progress.ratio 500 2000).
Proof.
  pose proof (ProgressFacts.calculateProgress_cases None None 500
                (mkCurrentLine 0 (Some (scenario_line 0 2000)) false)) as [H0 _].
  pose proof (ProgressFacts.calculateProgress_cases (Some looping_state) None 500
                (mkCurrentLine 0 (Some (scenario_line 0 2000)) true)) as [_ H1].
  pose proof (ProgressFacts.calculateProgress_cases None (Some line_loop) 3000
                (mkCurrentLine 1 (Some (scenario_line 2800 3200)) true)) as [_ H2].
  pose proof (ProgressFacts.calculateProgress_cases None None 500
                (mkCurrentLine 0 (Some (scenario_line 0 2000)) true)) as [_ H3].
  split; [apply H0; right; reflexivity|].
  split; [exact (proj1 (H1 _ eq_refl eq_refl ltac:(simpl; lia)) (or_introl eq_refl))|].
  split; [exact (proj1 (proj2 (H2 _ eq_refl eq_refl ltac:(simpl; lia))) eq_refl eq_refl
                   line_loop eq_refl eq_refl ltac:(simpl; lia))|].
  exact (proj2 (proj2 (H3 _ eq_refl eq_refl ltac:(simpl; lia))) eq_refl eq_refl
           (fun i Hi => ltac:(discriminate Hi))).
Defined.

Lemma seekTo_updates_then_plays_witness :
  (AudioPlayer.isDemoMode scenario_paused = true \/ AudioPlayer.hasAudio scenario_paused = true) /\
  0 <= AudioPlayer.duration scenario_paused /\
  AudioPlayer.currentTime (fst (AudioPlayer.seekTo 5999 scenario_paused)) = 5999 /\
  In AudioPlayer.AudioPlay (snd (AudioPlayer.seekTo 5999 scenario_paused)) /\
  AudioPlayer.audioPaused (fst (AudioPlayer.seekTo 5999 scenario_paused)) = false.
Proof.
  split; [right; reflexivity|]. split; [simpl; lia|].
  destruct (AudioPlayerFacts.seekTo_updates_then_plays scenario_paused 5999
              (or_intror eq_refl) ltac:(simpl; lia)) as [_ [H [rest [Hs [_ [Hp _]]]]]].
  split; [exact H|].
  destruct (Hp eq_refl) as [[Hd _]|[_ [Hin Hpa]]]; [discriminate Hd|].
  split; [rewrite Hs; right; right; exact Hin|exact Hpa].
Defined.

Lemma startLoop_lyrics_mode_witness :
  LoopHook.mode scenario_selection = Some LoopHook.lyrics_mode /\
  LoopHook.startLoop scenario_selection (Some scenario_data) 6000 =
  (true, LoopHook.loopReducer scenario_selection (LoopHook.START_LOOP 0 4000)).
Proof.
  split; [reflexivity|].
  destruct (LoopHookFacts.startLoop_lyrics_mode scenario_selection (Some scenario_data) 6000 eq_refl)
    as [_ [_ [_ H]]].
  destruct (H ltac:(vm_compute; discriminate)) as [E _].
  rewrite E. vm_compute. reflexivity.
Defined.

End Witnesses.

(* ================================================================== *)
(** ** [findCurrentLine] and what [LyricsDisplay] shows *)

Module SyncFacts.

Import SegmentIndex Progress Sync.

Lemma findCurrentLineIndex_cons (lyrics : list LyricLine) (t : Z) :
  lyrics <> [] ->
  findCurrentLineIndex lyrics t = search_loop (S (List.length lyrics)) lyrics t 0 (len lyrics - 1) (-1).
Proof. destruct lyrics; [contradiction|reflexivity]. Qed.

Lemma len_pos (lyrics : list LyricLine) : lyrics <> [] -> 0 < len lyrics.
Proof. destruct lyrics; [contradiction|unfold len; simpl; lia]. Qed.

(** [findCurrentLineIndex] on any transcript, sorted or not, overlapping or
    not: its result is [-1] or the index of a line that contains the time. *)
Theorem findCurrentLineIndex_sound (lyrics : list LyricLine) (t : Z) :
  let r := findCurrentLineIndex lyrics t in
  r = -1 \/ (0 <= r < len lyrics /\ in_line (line_at lyrics r) t).
Proof.
  cbv zeta. destruct lyrics as [|l ls] eqn:E; [left; reflexivity|].
  rewrite <- E. rewrite findCurrentLineIndex_cons by (subst; discriminate).
  assert (0 < len lyrics) by (apply len_pos; subst; discriminate).
  exact (SegmentIndexFacts.search_loop_sound lyrics t _ 0 (len lyrics - 1) (-1)
           ltac:(lia) ltac:(lia) ltac:(lia)).
Qed.

Lemma findCurrentLineIndex_finds (lyrics : list LyricLine) (t i : Z) :
  sorted_by_start lyrics -> non_overlapping lyrics -> lines_valid lyrics ->
  0 <= i < len lyrics -> in_line (line_at lyrics i) t ->
  findCurrentLineIndex lyrics t = i.
Proof.
  intros Hsorted Hdisj Hvalid Hi Hin.
  assert (Hne : lyrics <> []) by (intros ->; unfold len in Hi; simpl in Hi; lia).
  pose proof (findCurrentLineIndex_sound lyrics t) as Hs. cbv zeta in Hs.
  rewrite findCurrentLineIndex_cons in * by exact Hne.
  assert (Hc : search_loop (S (List.length lyrics)) lyrics t 0 (len lyrics - 1) (0 - 1) <> -1).
  { apply (SegmentIndexFacts.search_loop_complete lyrics t Hsorted Hdisj Hvalid i Hi Hin);
      unfold len in *; try lia; intros k Hk; lia. }
  simpl in Hc.
  destruct Hs as [Hs|[Hr Hs]]; [contradiction|].
  symmetry. exact (SegmentIndexFacts.in_line_unique lyrics t Hdisj i _ Hi Hr Hin Hs).
Qed.

Lemma lookup_line_in (lyrics : list LyricLine) (i : Z) :
  0 <= i < len lyrics -> lookup_line lyrics i = Some (line_at lyrics i).
Proof.
  intros Hi. unfold lookup_line, len in *.
  destruct (0 <=? i) eqn:E1; zbool; [|lia].
  destruct (i <? Z.of_nat (List.length lyrics)) eqn:E2; zbool; [reflexivity|lia].
Qed.

Lemma line_at_nth (pre : list LyricLine) (i : Z) (k : nat) (line : LyricLine) :
  nth_error pre k = Some line -> i = Z.of_nat k -> line_at pre i = line.
Proof.
  intros Hn ->. unfold line_at. rewrite Nat2Z.id.
  apply nth_error_nth. exact Hn.
Qed.

Lemma gap_search_inl (t : Z) (ls : list LyricLine) : forall i b bs k,
  gap_search t ls i b bs = inl k ->
  i <= k < i + len ls /\
  exists line, nth_error ls (Z.to_nat (k - i)) = Some line /\ closed_in line t.
Proof.
  induction ls as [|l rest IH]; intros i b bs k H; simpl in H; [discriminate|].
  destruct ((Types.startTime l <=? t) && (t <=? Types.endTime l)) eqn:E.
  - injection H as <-. zbool. unfold len; simpl. split; [lia|].
    exists l. replace (i - i) with 0 by lia. split; [reflexivity|]. unfold closed_in; lia.
  - destruct (match bs with Some b0 => negb (Qle_bool b0 (proximity_score t l)) | None => true end);
      apply IH in H as [Hk [line [Hn Hc]]]; unfold len in *; simpl; (split; [lia|]);
      exists line; (split; [|exact Hc]);
      replace (Z.to_nat (k - i)) with (S (Z.to_nat (k - (i + 1)))) by lia; exact Hn.
Qed.

Lemma gap_search_inr (t : Z) (ls : list LyricLine) : forall i b bs b',
  gap_search t ls i b bs = inr b' ->
  (forall line, In line ls -> ~ closed_in line t) /\
  (b' = b \/ i <= b' < i + len ls) /\
  (bs = None -> ls <> [] -> i <= b').
Proof.
  induction ls as [|l rest IH]; intros i b bs b' H; simpl in H.
  - injection H as <-. split; [intros line []|]. split; [left; reflexivity|]. intros _ Hne; contradiction.
  - destruct ((Types.startTime l <=? t) && (t <=? Types.endTime l)) eqn:E; [discriminate|].
    assert (Hl : ~ closed_in l t).
    { unfold closed_in. intros [H1 H2]. apply andb_false_iff in E as [E|E]; zbool; lia. }
    destruct (match bs with Some b0 => negb (Qle_bool b0 (proximity_score t l)) | None => true end) eqn:Eb.
    + apply IH in H as [Hno [Hr _]]. unfold len in *; simpl.
      split; [intros line [<-|Hin]; [exact Hl|exact (Hno line Hin)]|].
      split; [right; lia|]. intros _ _. lia.
    + apply IH in H as [Hno [Hr _]]. unfold len in *; simpl.
      split; [intros line [<-|Hin]; [exact Hl|exact (Hno line Hin)]|].
      split; [lia|]. intros -> _. discriminate.
Qed.

Lemma first_overlap_some (lo hi : Z) (ls : list LyricLine) : forall i k,
  first_overlap lo hi ls i = Some k ->
  i <= k < i + len ls /\
  exists line, nth_error ls (Z.to_nat (k - i)) = Some line /\ overlaps line lo hi.
Proof.
  induction ls as [|l rest IH]; intros i k H; simpl in H; [discriminate|].
  destruct ((Types.startTime l <=? hi) && (lo <=? Types.endTime l)) eqn:E.
  - injection H as <-. zbool. unfold len; simpl. split; [lia|].
    exists l. replace (i - i) with 0 by lia. split; [reflexivity|]. unfold overlaps; lia.
  - apply IH in H as [Hk [line [Hn Ho]]]. unfold len in *; simpl. split; [lia|].
    exists line. split; [|exact Ho].
    replace (Z.to_nat (k - i)) with (S (Z.to_nat (k - (i + 1)))) by lia. exact Hn.
Qed.

Lemma first_overlap_none (lo hi : Z) (ls : list LyricLine) : forall i,
  first_overlap lo hi ls i = None -> forall line, In line ls -> ~ overlaps line lo hi.
Proof.
  induction ls as [|l rest IH]; intros i H line Hin; [destruct Hin|]. simpl in H.
  destruct ((Types.startTime l <=? hi) && (lo <=? Types.endTime l)) eqn:E; [discriminate|].
  destruct Hin as [<-|Hin]; [|exact (IH _ H line Hin)].
  unfold overlaps. intros [H1 H2]. apply andb_false_iff in E as [E|E]; zbool; lia.
Qed.

Lemma closest_start_range (lo : Z) (ls : list LyricLine) : forall i ci cd,
  let r := closest_start lo ls i ci cd in r = ci \/ i <= r < i + len ls.
Proof.
  induction ls as [|l rest IH]; intros i ci cd; simpl; [left; reflexivity|].
  destruct (Z.abs (Types.startTime l - lo) <? cd);
    [destruct (IH (i + 1) i (Z.abs (Types.startTime l - lo))) as [->|H]
    |destruct (IH (i + 1) ci cd) as [->|H]]; unfold len in *; simpl; try lia; auto.
Qed.

Lemma last_ended_some (t : Z) (lyrics : list LyricLine) (n : nat) : forall k,
  last_ended t lyrics n = Some k ->
  0 <= k < Z.of_nat n /\ Types.endTime (line_at lyrics k) <= t /\
  (forall j, k < j < Z.of_nat n -> t < Types.endTime (line_at lyrics j)).
Proof.
  induction n as [|n IH]; intros k H; simpl in H; [discriminate|].
  destruct (Types.endTime (line_at lyrics (Z.of_nat n)) <=? t) eqn:E.
  - injection H as <-. zbool. split; [lia|]. split; [exact E|]. intros j Hj; lia.
  - zbool. apply IH in H as [Hk [He Hj]]. split; [lia|]. split; [exact He|].
    intros j Hj'. destruct (Z.eq_dec j (Z.of_nat n)) as [->|Hne]; [exact E|apply Hj; lia].
Qed.

Lemma last_ended_none (t : Z) (lyrics : list LyricLine) (n : nat) :
  last_ended t lyrics n = None -> forall j, 0 <= j < Z.of_nat n -> t < Types.endTime (line_at lyrics j).
Proof.
  induction n as [|n IH]; intros H j Hj; simpl in H; [lia|].
  destruct (Types.endTime (line_at lyrics (Z.of_nat n)) <=? t) eqn:E; [discriminate|].
  zbool. destruct (Z.eq_dec j (Z.of_nat n)) as [->|Hne]; [exact E|apply IH; [exact H|lia]].
Qed.

Lemma line_result_in (lyrics : list LyricLine) (i : Z) (a : bool) :
  0 <= i < len lyrics -> names_line lyrics (line_result lyrics i a).
Proof.
  intros Hi. right. simpl. split; [exact Hi|]. apply lookup_line_in. exact Hi.
Qed.

Lemma normal_path_names_line (first : LyricLine) (others : list LyricLine) (t : Z) (isPlaying : bool) :
  names_line (first :: others) (normal_path (first :: others) first t isPlaying).
Proof.
  set (L := first :: others).
  assert (HL : 0 < len L) by (apply len_pos; discriminate).
  unfold normal_path.
  destruct (negb isPlaying && (t <=? 0)); [left; reflexivity|].
  pose proof (findCurrentLineIndex_sound L t) as Hs. cbv zeta in Hs.
  destruct (0 <=? findCurrentLineIndex L t) eqn:E; zbool.
  - apply line_result_in. destruct Hs as [Hs|[Hs _]]; lia.
  - destruct (t <? Types.startTime first); [apply line_result_in; lia|].
    destruct (Types.endTime (line_at L (len L - 1)) <? t); [apply line_result_in; lia|].
    destruct (last_ended t L (List.length L)) as [k|] eqn:Ek; [|left; reflexivity].
    apply last_ended_some in Ek as [Hk _]. apply line_result_in. unfold len. lia.
Qed.

(** [findCurrentLine] never points outside the transcript: its result is
    either [{index: -1, line: null, isActive: false}] or an index of the
    transcript together with the line at that index, whatever the loop
    states, the time and the order of the lines. *)
Theorem findCurrentLine_names_line (lyricsData : option LyricsData) (currentTime : Z)
    (isPlaying : bool) (loopState : option LoopHook.LoopState)
    (individualLyricLoop : option Progress.IndividualLyricLoop) :
  let cl := findCurrentLine lyricsData currentTime isPlaying loopState individualLyricLoop in
  match lyricsData with
  | None => cl = no_line
  | Some d => names_line (lyrics d) cl
  end.
Proof.
  cbv zeta. unfold findCurrentLine.
  destruct lyricsData as [d|]; [|reflexivity].
  destruct (lyrics d) as [|first others] eqn:El; [left; reflexivity|].
  set (L := first :: others).
  assert (HL : 0 < len L) by (apply len_pos; discriminate).
  destruct (loop_active loopState).
  - pose proof (findCurrentLineIndex_sound L currentTime) as Hs. cbv zeta in Hs.
    destruct (0 <=? findCurrentLineIndex L currentTime) eqn:E; zbool.
    + apply line_result_in. destruct Hs as [Hs|[Hs _]]; lia.
    + destruct (gap_search currentTime L 0 (-1) None) as [i|b] eqn:Eg.
      * apply gap_search_inl in Eg as [Hi _]. apply line_result_in. lia.
      * apply gap_search_inr in Eg as [_ [Hb _]].
        destruct (0 <=? b) eqn:Eb; zbool; apply line_result_in; lia.
  - destruct individualLyricLoop as [il|]; [|apply normal_path_names_line].
    destruct (Progress.il_isActive il); [|apply normal_path_names_line].
    pose proof (findCurrentLineIndex_sound L (Progress.il_startTime il)) as Hs. cbv zeta in Hs.
    destruct (0 <=? findCurrentLineIndex L (Progress.il_startTime il)) eqn:E; zbool.
    + apply line_result_in. destruct Hs as [Hs|[Hs _]]; lia.
    + destruct (first_overlap (Progress.il_startTime il) (Progress.il_endTime il) L 0) as [i|] eqn:Eo.
      * apply first_overlap_some in Eo as [Hi _]. apply line_result_in. lia.
      * apply line_result_in.
        pose proof (closest_start_range (Progress.il_startTime il) others 1 0
                      (Z.abs (Types.startTime first - Progress.il_startTime il))) as H.
        cbv zeta in H. clear Hs. unfold L, len in *. cbn [List.length]. rewrite Nat2Z.inj_succ. lia.
Qed.

Lemma line_at_In (lyrics : list LyricLine) (j : Z) :
  0 <= j < len lyrics -> In (line_at lyrics j) lyrics.
Proof. intros Hj. unfold line_at, len in *. apply nth_In. lia. Qed.

Lemma nth_error_line_at (lyrics : list LyricLine) (i : Z) (line : LyricLine) :
  0 <= i -> nth_error lyrics (Z.to_nat (i - 0)) = Some line -> line_at lyrics i = line.
Proof.
  intros Hi Hn. apply (line_at_nth lyrics i (Z.to_nat (i - 0))); [exact Hn|lia].
Qed.

(** While the hook's loop is active, [findCurrentLine] always reports an
    active line of the transcript (never [-1]), and when the time lies within
    the closed interval of some line, the reported line's closed interval
    contains it. *)
Theorem findCurrentLine_during_loop (d : LyricsData) (currentTime : Z) (isPlaying : bool)
    (loopState : option LoopHook.LoopState) (individualLyricLoop : option Progress.IndividualLyricLoop) :
  loop_active loopState = true -> lyrics d <> [] ->
  let cl := findCurrentLine (Some d) currentTime isPlaying loopState individualLyricLoop in
  cl_isActive cl = true /\ 0 <= index cl < len (lyrics d) /\
  line cl = Some (line_at (lyrics d) (index cl)) /\
  ((exists j, 0 <= j < len (lyrics d) /\ closed_in (line_at (lyrics d) j) currentTime) ->
   closed_in (line_at (lyrics d) (index cl)) currentTime).
Proof.
  intros Hloop Hne. cbv zeta. unfold findCurrentLine.
  destruct (lyrics d) as [|first others] eqn:El; [contradiction|].
  rewrite Hloop. set (L := first :: others).
  assert (HL : 0 < len L) by (apply len_pos; discriminate).
  pose proof (findCurrentLineIndex_sound L currentTime) as Hs. cbv zeta in Hs.
  destruct (0 <=? findCurrentLineIndex L currentTime) eqn:E; zbool.
  - destruct Hs as [Hs|[Hr Hin]]; [lia|]. cbn [line_result index line cl_isActive].
    split; [reflexivity|]. split; [exact Hr|]. split; [apply lookup_line_in; exact Hr|].
    intros _. unfold closed_in, in_line in *. lia.
  - destruct (gap_search currentTime L 0 (-1) None) as [i|b] eqn:Eg.
    + apply gap_search_inl in Eg as [Hi [ln [Hn Hc]]].
      cbn [line_result index line cl_isActive].
      split; [reflexivity|]. split; [lia|].
      split; [rewrite lookup_line_in by lia; rewrite (nth_error_line_at L i ln ltac:(lia) Hn); reflexivity|].
      intros _. rewrite (nth_error_line_at L i ln ltac:(lia) Hn). exact Hc.
    + apply gap_search_inr in Eg as [Hno [Hb _]].
      assert (Hnone : (exists j, 0 <= j < len L /\ closed_in (line_at L j) currentTime) -> False).
      { intros [j [Hj Hcj]]. exact (Hno _ (line_at_In L j Hj) Hcj). }
      destruct (0 <=? b) eqn:Eb; zbool; cbn [line_result index line cl_isActive];
        (split; [reflexivity|]); (split; [lia|]);
        (split; [apply lookup_line_in; lia|]); intros Hx; exfalso; exact (Hnone Hx).
Qed.

(** While only an individual-line loop is active, [findCurrentLine] always
    reports an active line of the transcript; when some line overlaps the
    loop's window [[startTime, endTime]], the reported line contains the
    loop's start or overlaps that window. *)
Theorem findCurrentLine_individual_loop (d : LyricsData) (currentTime : Z) (isPlaying : bool)
    (loopState : option LoopHook.LoopState) (il : Progress.IndividualLyricLoop) :
  loop_active loopState = false -> Progress.il_isActive il = true -> lyrics d <> [] ->
  let cl := findCurrentLine (Some d) currentTime isPlaying loopState (Some il) in
  let lo := Progress.il_startTime il in
  let hi := Progress.il_endTime il in
  cl_isActive cl = true /\ 0 <= index cl < len (lyrics d) /\
  line cl = Some (line_at (lyrics d) (index cl)) /\
  ((exists j, 0 <= j < len (lyrics d) /\ overlaps (line_at (lyrics d) j) lo hi) ->
   in_line (line_at (lyrics d) (index cl)) lo \/ overlaps (line_at (lyrics d) (index cl)) lo hi).
Proof.
  intros Hloop Hil Hne. cbv zeta. unfold findCurrentLine.
  destruct (lyrics d) as [|first others] eqn:El; [contradiction|].
  rewrite Hloop, Hil. set (L := first :: others).
  assert (HL : 0 < len L) by (apply len_pos; discriminate).
  set (lo := Progress.il_startTime il). set (hi := Progress.il_endTime il).
  pose proof (findCurrentLineIndex_sound L lo) as Hs. cbv zeta in Hs.
  destruct (0 <=? findCurrentLineIndex L lo) eqn:E; zbool.
  - destruct Hs as [Hs|[Hr Hin]]; [lia|]. cbn [line_result index line cl_isActive].
    split; [reflexivity|]. split; [exact Hr|]. split; [apply lookup_line_in; exact Hr|].
    intros _. left. exact Hin.
  - destruct (first_overlap lo hi L 0) as [i|] eqn:Eo.
    + apply first_overlap_some in Eo as [Hi [ln [Hn Ho]]]. cbn [line_result index line cl_isActive].
      split; [reflexivity|]. split; [lia|]. split; [apply lookup_line_in; lia|].
      intros _. right. rewrite (nth_error_line_at L i ln ltac:(lia) Hn). exact Ho.
    + pose proof (first_overlap_none lo hi L 0 Eo) as Hno.
      pose proof (closest_start_range lo others 1 0 (Z.abs (Types.startTime first - lo))) as Hc.
      cbv zeta in Hc.
      assert (Hr : 0 <= closest_start lo others 1 0 (Z.abs (Types.startTime first - lo)) < len L).
      { clear Hs. unfold L, len in *. cbn [List.length]. rewrite Nat2Z.inj_succ. lia. }
      cbn [line_result index line cl_isActive]. split; [reflexivity|]. split; [exact Hr|]. split; [apply lookup_line_in; exact Hr|].
      intros [j [Hj Hoj]]. exfalso. exact (Hno _ (line_at_In L j Hj) Hoj).
Qed.

Lemma display_line_normal (d : LyricsData) (first : LyricLine) (others : list LyricLine)
    (t : Z) (isPlaying : bool) :
  lyrics d = first :: others ->
  display_line (Some d) t isPlaying = normal_path (first :: others) first t isPlaying.
Proof. intros El. unfold display_line, findCurrentLine. rewrite El. reflexivity. Qed.

(** [LyricsDisplay] on a well-formed transcript (sorted, non-overlapping,
    every line with [startTime < endTime]), once playback has started
    (playing, or at a time past 0): the line containing the time is shown
    active; when no line contains it, no line is shown active. *)
Theorem display_line_active (d : LyricsData) (t : Z) (isPlaying : bool) :
  sorted_by_start (lyrics d) -> non_overlapping (lyrics d) -> lines_valid (lyrics d) ->
  isPlaying = true \/ 0 < t ->
  (forall i, 0 <= i < len (lyrics d) -> in_line (line_at (lyrics d) i) t ->
     display_line (Some d) t isPlaying = line_result (lyrics d) i true) /\
  ((forall i, 0 <= i < len (lyrics d) -> ~ in_line (line_at (lyrics d) i) t) ->
     cl_isActive (display_line (Some d) t isPlaying) = false).
Proof.
  intros Hsorted Hdisj Hvalid Hstart.
  destruct (lyrics d) as [|first others] eqn:El.
  - split; [intros i Hi; unfold len in Hi; simpl in Hi; lia|].
    intros _. unfold display_line, findCurrentLine. rewrite El. reflexivity.
  - rewrite (display_line_normal d first others t isPlaying El).
    set (L := first :: others). unfold normal_path.
    assert (Hp : negb isPlaying && (t <=? 0) = false).
    { destruct Hstart as [->|Ht]; [reflexivity|].
      destruct (t <=? 0) eqn:E; zbool; [lia|apply andb_false_r]. }
    rewrite Hp. split.
    + intros i Hi Hin.
      rewrite (findCurrentLineIndex_finds L t i Hsorted Hdisj Hvalid Hi Hin).
      destruct (0 <=? i) eqn:E; zbool; [reflexivity|lia].
    + intros Hno.
      pose proof (findCurrentLineIndex_sound L t) as Hs. cbv zeta in Hs.
      destruct Hs as [Hs|[Hr Hin]]; [|exfalso; exact (Hno _ Hr Hin)].
      rewrite Hs. cbn [Z.leb Z.compare].
      destruct (t <? Types.startTime first); [reflexivity|].
      destruct (Types.endTime (line_at L (len L - 1)) <? t); [reflexivity|].
      destruct (last_ended t L (List.length L)); reflexivity.
Qed.

(** [LyricsDisplay] when playback has started and no line contains the time
    (whatever the order of the lines): before the first line it shows line 0,
    inactive; after the end of the last line, the last line, inactive; in
    between, inactive, the line of highest index that has ended by then. *)
Theorem display_line_between_lines (d : LyricsData) (t : Z) (isPlaying : bool) :
  isPlaying = true \/ 0 < t -> lyrics d <> [] ->
  (forall i, 0 <= i < len (lyrics d) -> ~ in_line (line_at (lyrics d) i) t) ->
  let cl := display_line (Some d) t isPlaying in
  let L := lyrics d in
  (t < Types.startTime (line_at L 0) -> cl = line_result L 0 false) /\
  (Types.startTime (line_at L 0) <= t -> Types.endTime (line_at L (len L - 1)) < t ->
     cl = line_result L (len L - 1) false) /\
  (Types.startTime (line_at L 0) <= t -> t <= Types.endTime (line_at L (len L - 1)) ->
     exists k, cl = line_result L k false /\ 0 <= k < len L /\
       Types.endTime (line_at L k) <= t /\
       forall j, k < j < len L -> t < Types.endTime (line_at L j)).
Proof.
  intros Hstart Hne Hno. cbv zeta.
  destruct (lyrics d) as [|first others] eqn:El; [contradiction|].
  rewrite (display_line_normal d first others t isPlaying El).
  set (L := first :: others). unfold normal_path.
  assert (Hp : negb isPlaying && (t <=? 0) = false).
  { destruct Hstart as [->|Ht]; [reflexivity|].
    destruct (t <=? 0) eqn:E; zbool; [lia|apply andb_false_r]. }
  rewrite Hp.
  pose proof (findCurrentLineIndex_sound L t) as Hs. cbv zeta in Hs.
  destruct Hs as [Hs|[Hr Hin]]; [|exfalso; exact (Hno _ Hr Hin)].
  rewrite Hs. cbn [Z.leb Z.compare].
  assert (Hfirst : line_at L 0 = first) by reflexivity. rewrite Hfirst.
  split; [|split].
  - intros Ht. destruct (t <? Types.startTime first) eqn:E; zbool; [reflexivity|lia].
  - intros H1 H2. destruct (t <? Types.startTime first) eqn:E; zbool; [lia|].
    destruct (Types.endTime (line_at L (len L - 1)) <? t) eqn:E2; zbool; [reflexivity|lia].
  - intros H1 H2. destruct (t <? Types.startTime first) eqn:E; zbool; [lia|].
    destruct (Types.endTime (line_at L (len L - 1)) <? t) eqn:E2; zbool; [lia|].
    assert (HL : 0 < len L) by (apply len_pos; discriminate).
    destruct (last_ended t L (List.length L)) as [k|] eqn:Ek.
    + apply last_ended_some in Ek as [Hk [He Hj]].
      exists k. split; [reflexivity|]. split; [unfold len; lia|]. split; [exact He|].
      intros j Hj'. apply Hj. unfold len in Hj'. lia.
    + exfalso. pose proof (last_ended_none t L _ Ek 0 ltac:(unfold len in HL; lia)) as H0.
      apply (Hno 0); [unfold L, len in *; cbn [List.length] in *; lia|].
      unfold in_line. change (line_at (first :: others) 0) with (line_at L 0).
      rewrite Hfirst in H0 |- *. lia.
Qed.

Lemma ratio_unit (a b : Z) : 0 <= a < b -> (0 <= ratio a b)%Q /\ (ratio a b < 1)%Q.
Proof.
  intros Hab. destruct b as [|b|b]; try lia.
  unfold ratio, Qle, Qlt, Qdiv, Qinv, inject_Z, Qmult; simpl. lia.
Qed.

Lemma clamp01_unit (q : Q) : (0 <= q)%Q -> (q < 1)%Q -> (clamp01 q == q)%Q.
Proof.
  intros H0 H1. unfold clamp01, Qmax, Qmin, GenericMinMax.gmax, GenericMinMax.gmin.
  assert (E1 : (1 ?= q)%Q = Gt) by (apply Qgt_alt; exact H1).
  rewrite E1.
  destruct (0 ?= q)%Q eqn:E0.
  - apply Qeq_alt in E0. exact E0.
  - reflexivity.
  - apply Qgt_alt in E0. exfalso. apply (Qlt_not_le q 0); assumption.
Qed.

(** An active line of [LyricsDisplay] contains the current time. *)
Lemma display_line_active_in_line (d : option LyricsData) (t : Z) (isPlaying : bool) :
  cl_isActive (display_line d t isPlaying) = true ->
  exists l, line (display_line d t isPlaying) = Some l /\ in_line l t.
Proof.
  destruct d as [d|]; [|unfold display_line, findCurrentLine; discriminate].
  destruct (lyrics d) as [|first others] eqn:El.
  - unfold display_line, findCurrentLine. rewrite El. discriminate.
  - rewrite (display_line_normal d first others t isPlaying El).
    set (L := first :: others). unfold normal_path.
    destruct (negb isPlaying && (t <=? 0)); [discriminate|].
    pose proof (findCurrentLineIndex_sound L t) as Hs. cbv zeta in Hs.
    destruct Hs as [Hs|[Hr Hin]].
    + rewrite Hs. cbn [Z.leb Z.compare].
      destruct (t <? Types.startTime first); [discriminate|].
      destruct (Types.endTime (line_at L (len L - 1)) <? t); [discriminate|].
      destruct (last_ended t L (List.length L)); discriminate.
    + intros _. destruct (0 <=? findCurrentLineIndex L t) eqn:E; zbool; [|lia].
      exists (line_at L (findCurrentLineIndex L t)). split; [|exact Hin].
      cbn [line_result line]. apply lookup_line_in. exact Hr.
Qed.

(** The progress bar of [LyricsDisplay] (no loop state is passed to the
    hook): 0 while no line is active; for an active line, the fraction of
    the line already sung, [(t - start) / (end - start)], which lies in
    [[0, 1)] without any clamping. *)
Theorem display_progress_values (d : option LyricsData) (t : Z) (isPlaying : bool) :
  let cl := display_line d t isPlaying in
  (cl_isActive cl = false -> display_progress d t isPlaying = 0%Q) /\
  (cl_isActive cl = true -> exists l, line cl = Some l /\ in_line l t /\
     (display_progress d t isPlaying == ratio (t - Types.startTime l)
                                              (Types.endTime l - Types.startTime l))%Q /\
     (0 <= display_progress d t isPlaying)%Q /\ (display_progress d t isPlaying < 1)%Q).
Proof.
  cbv zeta. split.
  - intros Hf. unfold display_progress, calculateProgress.
    destruct (line (display_line d t isPlaying)); [rewrite Hf; reflexivity|reflexivity].
  - intros Ha. destruct (display_line_active_in_line d t isPlaying Ha) as [l [Hl Hin]].
    exists l. split; [exact Hl|]. split; [exact Hin|].
    unfold in_line in Hin.
    destruct (ratio_unit (t - Types.startTime l) (Types.endTime l - Types.startTime l))
      as [R0 R1]; [lia|].
    assert (Hp : display_progress d t isPlaying =
                 clamp01 (ratio (t - Types.startTime l) (Types.endTime l - Types.startTime l))).
    { unfold display_progress, calculateProgress. rewrite Hl, Ha. reflexivity. }
    rewrite Hp. pose proof (clamp01_unit _ R0 R1) as Hc.
    split; [exact Hc|]. rewrite Hc. split; assumption.
Qed.

End SyncFacts.

(* ------------------------------------------------------------------ *)
(** *** The selection of [useLoopState] *)

Module SelectionFacts.

Import SegmentIndex LoopHook.

Lemma insert_by_permutation {A} (le : A -> A -> bool) (x : A) (l : list A) :
  Permutation (x :: l) (insert_by le x l).
Proof.
  induction l as [|y ys IH]; simpl; [reflexivity|].
  destruct (le x y); [reflexivity|].
  transitivity (y :: x :: ys); [constructor|constructor; exact IH].
Qed.

Lemma sort_by_permutation {A} (le : A -> A -> bool) (l : list A) : Permutation l (sort_by le l).
Proof.
  induction l as [|x xs IH]; unfold sort_by in *; simpl; [reflexivity|].
  transitivity (x :: fold_right (insert_by le) [] xs); [constructor; exact IH|].
  apply insert_by_permutation.
Qed.

Lemma insert_strict (x : Z) (l : list Z) :
  StronglySorted Z.lt l -> ~ In x l -> StronglySorted Z.lt (insert_by Z.leb x l).
Proof.
  induction l as [|y ys IH]; intros Hs Hn; simpl; [repeat constructor|].
  apply StronglySorted_inv in Hs as [Hys Hy].
  destruct (x <=? y) eqn:E; zbool.
  - assert (x < y) by (destruct (Z.eq_dec x y); [subst; exfalso; apply Hn; left; reflexivity|lia]).
    constructor; [constructor; assumption|].
    constructor; [assumption|].
    eapply Forall_impl; [|exact Hy]. intros z Hz. lia.
  - constructor; [apply IH; [exact Hys|intros H; apply Hn; right; exact H]|].
    apply Forall_forall. intros z Hz.
    apply (Permutation_in _ (Permutation_sym (insert_by_permutation Z.leb x ys))) in Hz.
    destruct Hz as [<-|Hz]; [lia|]. rewrite Forall_forall in Hy. apply Hy, Hz.
Qed.

Lemma sort_strict (l : list Z) : NoDup l -> StronglySorted Z.lt (sort_by Z.leb l).
Proof.
  induction l as [|x xs IH]; intros Hnd; [constructor|].
  apply NoDup_cons_iff in Hnd as [Hx Hnd].
  change (sort_by Z.leb (x :: xs)) with (insert_by Z.leb x (sort_by Z.leb xs)).
  apply insert_strict; [apply IH, Hnd|].
  intros H. apply Hx. apply (Permutation_in _ (Permutation_sym (sort_by_permutation Z.leb xs))), H.
Qed.

Lemma strict_nodup (l : list Z) : StronglySorted Z.lt l -> NoDup l.
Proof.
  induction 1 as [|x l Hs IH Hf]; constructor; [|exact IH].
  intros Hx. rewrite Forall_forall in Hf. specialize (Hf x Hx). lia.
Qed.

Lemma filter_strict (f : Z -> bool) (l : list Z) :
  StronglySorted Z.lt l -> StronglySorted Z.lt (filter f l).
Proof.
  induction 1 as [|x l Hs IH Hf]; simpl; [constructor|].
  destruct (f x); [|exact IH]. constructor; [exact IH|].
  rewrite Forall_forall in *. intros y Hy. apply filter_In in Hy as [Hy _]. apply Hf, Hy.
Qed.

Lemma strict_sorted_iff (l : list Z) : StronglySorted Z.lt l <-> Sorted Z.lt l.
Proof.
  split; [apply StronglySorted_Sorted|]. apply Sorted_StronglySorted.
  intros x y z; lia.
Qed.

(** Two strictly increasing lists with the same elements are equal. *)
Lemma strict_ext (a b : list Z) :
  StronglySorted Z.lt a -> StronglySorted Z.lt b -> (forall x, In x a <-> In x b) -> a = b.
Proof.
  revert b. induction a as [|x xs IH]; intros b Ha Hb Hab.
  - destruct b as [|y ys]; [reflexivity|]. exfalso. apply (proj2 (Hab y)). left; reflexivity.
  - destruct b as [|y ys]; [exfalso; apply (proj1 (Hab x)); left; reflexivity|].
    apply StronglySorted_inv in Ha as [Hxs Hx]. apply StronglySorted_inv in Hb as [Hys Hy].
    rewrite Forall_forall in Hx, Hy.
    assert (x = y).
    { destruct (proj1 (Hab x) (or_introl eq_refl)) as [->|H1]; [reflexivity|].
      destruct (proj2 (Hab y) (or_introl eq_refl)) as [->|H2]; [reflexivity|].
      specialize (Hx y H2). specialize (Hy x H1). lia. }
    subst y. f_equal. apply IH; [exact Hxs|exact Hys|].
    intros z. split; intros Hz.
    + destruct (proj1 (Hab z) (or_intror Hz)) as [<-|H]; [|exact H].
      specialize (Hx x Hz). lia.
    + destruct (proj2 (Hab z) (or_intror Hz)) as [<-|H]; [|exact H].
      specialize (Hy x Hz). lia.
Qed.

Lemma existsb_eqb_In (i : Z) (l : list Z) : existsb (Z.eqb i) l = true <-> In i l.
Proof.
  rewrite existsb_exists. split.
  - intros [x [Hx E]]. apply Z.eqb_eq in E. subst. exact Hx.
  - intros H. exists i. split; [exact H|apply Z.eqb_refl].
Qed.

(** The selection after [TOGGLE_LYRIC_SELECTION i], as a set. *)
Lemma toggle_In (st : LoopState) (i j : Z) :
  In j (selectedLyricIndices (loopReducer st (TOGGLE_LYRIC_SELECTION i))) <->
  if j =? i then ~ In i (selectedLyricIndices st) else In j (selectedLyricIndices st).
Proof.
  simpl. destruct (existsb (Z.eqb i) (selectedLyricIndices st)) eqn:E.
  - apply existsb_eqb_In in E. rewrite filter_In.
    destruct (j =? i) eqn:Eji; simpl; split; try tauto; intros [_ H]; discriminate.
  - assert (Hni : ~ In i (selectedLyricIndices st))
      by (intros H; apply existsb_eqb_In in H; congruence).
    split; intros H.
    + apply (Permutation_in _ (Permutation_sym (sort_by_permutation Z.leb _))) in H.
      apply in_app_or in H. destruct (j =? i) eqn:Eji; zbool; subst; [exact Hni|].
      destruct H as [H|[H|[]]]; [exact H|congruence].
    + apply (Permutation_in _ (sort_by_permutation Z.leb _)). apply in_or_app.
      destruct (j =? i) eqn:Eji; zbool; subst; [right; left; reflexivity|left; exact H].
Qed.

Lemma toggle_strict (st : LoopState) (i : Z) :
  StronglySorted Z.lt (selectedLyricIndices st) ->
  StronglySorted Z.lt (selectedLyricIndices (loopReducer st (TOGGLE_LYRIC_SELECTION i))).
Proof.
  intros Hs. simpl. destruct (existsb (Z.eqb i) (selectedLyricIndices st)) eqn:E.
  - apply filter_strict, Hs.
  - apply sort_strict. apply NoDup_app; [apply strict_nodup, Hs|repeat constructor; simpl; tauto|].
    intros x Hx [<-|[]]. apply existsb_eqb_In in Hx. congruence.
Qed.

Lemma list_min_spec (x : Z) (xs : list Z) :
  (forall y, In y (x :: xs) -> list_min x xs <= y) /\ In (list_min x xs) (x :: xs).
Proof.
  unfold list_min. revert x. induction xs as [|y ys IH]; intros x; simpl.
  - split; [intros z [<-|[]]; lia|left; reflexivity].
  - destruct (IH (Z.min x y)) as [Hle Hin]. split.
    + intros z [<-|[<-|Hz]].
      * specialize (Hle (Z.min x y) (or_introl eq_refl)). lia.
      * specialize (Hle (Z.min x y) (or_introl eq_refl)). lia.
      * apply Hle. right. exact Hz.
    + destruct Hin as [Hm|Hm]; [|right; right; exact Hm].
      rewrite <- Hm. destruct (Z.min_spec x y) as [[_ ->]|[_ ->]]; [left|right; left]; reflexivity.
Qed.

Lemma list_max_spec (x : Z) (xs : list Z) :
  (forall y, In y (x :: xs) -> y <= list_max x xs) /\ In (list_max x xs) (x :: xs).
Proof.
  unfold list_max. revert x. induction xs as [|y ys IH]; intros x; simpl.
  - split; [intros z [<-|[]]; lia|left; reflexivity].
  - destruct (IH (Z.max x y)) as [Hle Hin]. split.
    + intros z [<-|[<-|Hz]].
      * specialize (Hle (Z.max x y) (or_introl eq_refl)). lia.
      * specialize (Hle (Z.max x y) (or_introl eq_refl)). lia.
      * apply Hle. right. exact Hz.
    + destruct Hin as [Hm|Hm]; [|right; right; exact Hm].
      rewrite <- Hm. destruct (Z.max_spec x y) as [[_ ->]|[_ ->]]; [right; left|left]; reflexivity.
Qed.

Lemma lookup_line_some (lyrics : list LyricLine) (i : Z) (l : LyricLine) :
  lookup_line lyrics i = Some l <-> 0 <= i < len lyrics /\ l = line_at lyrics i.
Proof.
  unfold lookup_line, len. destruct ((0 <=? i) && (i <? Z.of_nat (List.length lyrics))) eqn:E.
  - zbool. split; [intros Hs; injection Hs as <-; split; [lia|reflexivity]|intros [_ ->]; reflexivity].
  - split; [discriminate|intros [Hr _]].
    apply andb_false_iff in E as [E|E]; zbool; lia.
Qed.

Lemma selectedLines_In (sel : list Z) (d : LyricsData) (l : LyricLine) :
  In l (selectedLines sel d) <->
  exists i, In i sel /\ 0 <= i < len (lyrics d) /\ l = line_at (lyrics d) i.
Proof.
  unfold selectedLines. rewrite in_flat_map. split.
  - intros [i [Hi Hl]]. destruct (lookup_line (lyrics d) i) as [l'|] eqn:E; [|destruct Hl].
    destruct Hl as [<-|[]]. apply lookup_line_some in E as [Hr ->]. exists i. tauto.
  - intros [i [Hi [Hr ->]]]. exists i. split; [exact Hi|].
    assert (E : lookup_line (lyrics d) i = Some (line_at (lyrics d) i))
      by (apply lookup_line_some; tauto).
    rewrite E. left. reflexivity.
Qed.

(** The range of a non-empty set of selected lines: from the least start
    to the greatest end among them. *)
Lemma calculateTimeRange_cons (sel : list Z) (d : LyricsData) (l : LyricLine) (ls : list LyricLine) :
  selectedLines sel d = l :: ls ->
  calculateTimeRangeFromLyrics sel (Some d) =
  (list_min (Types.startTime l) (map Types.startTime ls), list_max (Types.endTime l) (map Types.endTime ls)).
Proof.
  intros E. destruct sel as [|i is]; [discriminate|]. unfold calculateTimeRangeFromLyrics. rewrite E. reflexivity.
Qed.

Lemma calculateTimeRange_nil (sel : list Z) (d : LyricsData) :
  selectedLines sel d = [] -> calculateTimeRangeFromLyrics sel (Some d) = (0, 0).
Proof.
  intros E. destruct sel as [|i is]; [reflexivity|]. unfold calculateTimeRangeFromLyrics. rewrite E. reflexivity.
Qed.

Lemma loopReducer_keeps_invariant (st : LoopState) (a : LoopAction) :
  StronglySorted Z.lt (selectedLyricIndices st) -> 0 <= repeatCount st -> 0 <= currentIteration st ->
  let st' := loopReducer st a in
  StronglySorted Z.lt (selectedLyricIndices st') /\ 0 <= repeatCount st' /\ 0 <= currentIteration st'.
Proof.
  intros Hs Hr Hc. cbv zeta.
  destruct a; simpl; (split; [|split]); try assumption; try lia; try constructor.
  - destruct (is_lyrics_mode m); [exact Hs|constructor].
  - apply (toggle_strict st i Hs).
Qed.

(** [loopReducer] from [initialLoopState], under any sequence of actions:
    the selected indices are strictly increasing (sorted, no duplicates),
    the repeat count and the iteration counter are never negative. *)
Theorem loopReducer_reachable_invariant (actions : list LoopAction) :
  let st := fold_left loopReducer actions initialLoopState in
  Sorted Z.lt (selectedLyricIndices st) /\ 0 <= repeatCount st /\ 0 <= currentIteration st.
Proof.
  cbv zeta.
  assert (H : forall st, StronglySorted Z.lt (selectedLyricIndices st) -> 0 <= repeatCount st ->
                0 <= currentIteration st ->
              let st' := fold_left loopReducer actions st in
              StronglySorted Z.lt (selectedLyricIndices st') /\ 0 <= repeatCount st' /\
              0 <= currentIteration st').
  { induction actions as [|a acts IH]; intros st Hs Hr Hc; [cbv zeta; simpl; tauto|].
    simpl. destruct (loopReducer_keeps_invariant st a Hs Hr Hc) as [Hs' [Hr' Hc']].
    apply IH; assumption. }
  destruct (H initialLoopState) as [Hs [Hr Hc]]; [constructor|simpl; lia|simpl; lia|].
  split; [apply strict_sorted_iff, Hs|split; assumption].
Qed.

(** [TOGGLE_LYRIC_SELECTION i] flips whether [i] is selected and leaves
    every other index as it was. *)
Theorem toggle_flips_selection (st : LoopState) (i j : Z) :
  isLyricSelected (loopReducer st (TOGGLE_LYRIC_SELECTION i)) j =
  if j =? i then negb (isLyricSelected st i) else isLyricSelected st j.
Proof.
  pose proof (toggle_In st i j) as H. unfold isLyricSelected.
  destruct (existsb (Z.eqb j) (selectedLyricIndices (loopReducer st (TOGGLE_LYRIC_SELECTION i)))) eqn:E1.
  - apply existsb_eqb_In, H in E1. destruct (j =? i).
    + destruct (existsb (Z.eqb i) (selectedLyricIndices st)) eqn:E2; [|reflexivity].
      apply existsb_eqb_In in E2. contradiction.
    + symmetry. apply existsb_eqb_In, E1.
  - assert (Hn : ~ In j (selectedLyricIndices (loopReducer st (TOGGLE_LYRIC_SELECTION i))))
      by (intros Hj; apply existsb_eqb_In in Hj; congruence).
    rewrite H in Hn. destruct (j =? i).
    + destruct (existsb (Z.eqb i) (selectedLyricIndices st)) eqn:E2; [reflexivity|].
      exfalso. apply Hn. intros Hi. apply existsb_eqb_In in Hi. congruence.
    + symmetry. destruct (existsb (Z.eqb j) (selectedLyricIndices st)) eqn:E2; [|reflexivity].
      apply existsb_eqb_In in E2. contradiction.
Qed.

(** On a strictly increasing selection (as every reachable state has),
    toggling the same index twice gives back the same state. *)
Theorem toggle_twice_identity (st : LoopState) (i : Z) :
  Sorted Z.lt (selectedLyricIndices st) ->
  loopReducer (loopReducer st (TOGGLE_LYRIC_SELECTION i)) (TOGGLE_LYRIC_SELECTION i) = st.
Proof.
  intros Hs. apply strict_sorted_iff in Hs.
  set (st1 := loopReducer st (TOGGLE_LYRIC_SELECTION i)).
  set (st2 := loopReducer st1 (TOGGLE_LYRIC_SELECTION i)).
  assert (Hsel : selectedLyricIndices st2 = selectedLyricIndices st).
  { apply strict_ext; [apply toggle_strict, toggle_strict, Hs|exact Hs|].
    intros x. unfold st2. rewrite toggle_In. destruct (x =? i) eqn:E.
    - apply Z.eqb_eq in E. subst x. unfold st1. rewrite toggle_In, Z.eqb_refl.
      destruct (in_dec Z.eq_dec i (selectedLyricIndices st)); tauto.
    - unfold st1. rewrite toggle_In, E. tauto. }
  assert (H1 : isActive st2 = isActive st /\ mode st2 = mode st /\ startTime st2 = startTime st /\
               endTime st2 = endTime st /\ repeatCount st2 = repeatCount st /\
               currentIteration st2 = currentIteration st) by (repeat split).
  destruct st2, st. simpl in *. destruct H1 as [-> [-> [-> [-> [-> ->]]]]]. subst. reflexivity.
Qed.

Lemma calculateTimeRange_ordered (sel : list Z) (d : LyricsData) :
  lines_valid (lyrics d) ->
  let '(s, e) := calculateTimeRangeFromLyrics sel (Some d) in (s = 0 /\ e = 0) \/ s < e.
Proof.
  intros Hv. destruct (selectedLines sel d) as [|l ls] eqn:E.
  - rewrite (calculateTimeRange_nil sel d E). left. split; reflexivity.
  - rewrite (calculateTimeRange_cons sel d l ls E). right.
    destruct (proj1 (selectedLines_In sel d l) (ltac:(rewrite E; left; reflexivity)))
      as [i [_ [Hr ->]]].
    destruct (list_min_spec (Types.startTime (line_at (lyrics d) i)) (map Types.startTime ls)) as [Hm _].
    destruct (list_max_spec (Types.endTime (line_at (lyrics d) i)) (map Types.endTime ls)) as [HM _].
    specialize (Hm _ (or_introl eq_refl)). specialize (HM _ (or_introl eq_refl)).
    specialize (Hv i Hr). lia.
Qed.

(** In ['lyrics'] mode over a transcript whose lines all have
    [startTime < endTime], [startLoop] succeeds exactly when [canStartLoop]
    says a loop can start. *)
Theorem startLoop_agrees_canStartLoop (st : LoopState) (d : LyricsData) (duration : Z) :
  mode st = Some lyrics_mode -> lines_valid (lyrics d) ->
  fst (startLoop st (Some d) duration) = canStartLoop st (Some d).
Proof.
  intros Hm Hv. unfold startLoop, canStartLoop. rewrite Hm.
  pose proof (calculateTimeRange_ordered (selectedLyricIndices st) d Hv) as Ho.
  destruct (calculateTimeRangeFromLyrics (selectedLyricIndices st) (Some d)) as [s e].
  destruct Ho as [[-> ->]|Hlt]; [reflexivity|].
  destruct (s =? e) eqn:E; zbool; [lia|].
  destruct (validateTimeRange s e duration). simpl. symmetry. apply Z.ltb_lt, Hlt.
Qed.

(** In ['time'] mode [startLoop] always starts the loop, also on a range
    with [endTime <= startTime], for which [canStartLoop] reports that no
    loop can start. *)
Theorem startLoop_time_mode_ignores_canStartLoop (st : LoopState) (data : option LyricsData) (duration : Z) :
  mode st = Some time_mode -> endTime st <= startTime st ->
  canStartLoop st data = false /\ fst (startLoop st data duration) = true /\
  isActive (snd (startLoop st data duration)) = true.
Proof.
  intros Hm He. unfold startLoop, canStartLoop. rewrite Hm.
  destruct (startTime st <? endTime st) eqn:E; zbool; [lia|].
  destruct (validateTimeRange (startTime st) (endTime st) duration). repeat split.
Qed.

(** The range of a lyrics loop: every selected line lies within it, each
    end is reached by a selected line, indices outside the transcript are
    ignored, and with no selected line inside it the range is [(0, 0)]. *)
Theorem calculateTimeRange_covers (sel : list Z) (d : LyricsData) :
  let r := calculateTimeRangeFromLyrics sel (Some d) in
  (forall i, In i sel -> 0 <= i < len (lyrics d) ->
     fst r <= Types.startTime (line_at (lyrics d) i) /\ Types.endTime (line_at (lyrics d) i) <= snd r) /\
  ((exists i, In i sel /\ 0 <= i < len (lyrics d)) ->
     exists i j, In i sel /\ 0 <= i < len (lyrics d) /\ fst r = Types.startTime (line_at (lyrics d) i) /\
                 In j sel /\ 0 <= j < len (lyrics d) /\ snd r = Types.endTime (line_at (lyrics d) j)) /\
  ((forall i, In i sel -> ~ (0 <= i < len (lyrics d))) -> r = (0, 0)).
Proof.
  cbv zeta. destruct (selectedLines sel d) as [|l ls] eqn:E.
  - rewrite (calculateTimeRange_nil sel d E).
    assert (Hno : forall i, In i sel -> ~ (0 <= i < len (lyrics d))).
    { intros i Hi Hr. assert (Hin : In (line_at (lyrics d) i) (selectedLines sel d))
        by (apply selectedLines_In; exists i; tauto).
      rewrite E in Hin. destruct Hin. }
    split; [intros i Hi Hr; exfalso; exact (Hno i Hi Hr)|].
    split; [intros [i [Hi Hr]]; exfalso; exact (Hno i Hi Hr)|reflexivity].
  - rewrite (calculateTimeRange_cons sel d l ls E). cbn [fst snd].
    destruct (list_min_spec (Types.startTime l) (map Types.startTime ls)) as [Hm Hmin].
    destruct (list_max_spec (Types.endTime l) (map Types.endTime ls)) as [HM Hmax].
    assert (Hsel : forall x, In x (l :: ls) <-> exists i, In i sel /\ 0 <= i < len (lyrics d) /\ x = line_at (lyrics d) i)
      by (intros x; rewrite <- E; apply selectedLines_In).
    split; [|split].
    + intros i Hi Hr. assert (Hx : In (line_at (lyrics d) i) (l :: ls)) by (apply Hsel; exists i; tauto).
      split; [apply Hm|apply HM]; change (Types.startTime l :: map Types.startTime ls)
        with (map Types.startTime (l :: ls)); try change (Types.endTime l :: map Types.endTime ls)
        with (map Types.endTime (l :: ls)); apply in_map, Hx.
    + intros _.
      change (Types.startTime l :: map Types.startTime ls) with (map Types.startTime (l :: ls)) in Hmin.
      change (Types.endTime l :: map Types.endTime ls) with (map Types.endTime (l :: ls)) in Hmax.
      apply in_map_iff in Hmin as [x [Hx Hxin]]. apply in_map_iff in Hmax as [y [Hy Hyin]].
      apply Hsel in Hxin as [i [Hi [Hr ->]]]. apply Hsel in Hyin as [j [Hj [Hrj ->]]].
      exists i, j. repeat split; try assumption; lia.
    + intros Hno. exfalso.
      destruct (proj1 (Hsel l) (or_introl eq_refl)) as [i [Hi [Hr _]]]. exact (Hno i Hi Hr).
Qed.

End SelectionFacts.

(* ------------------------------------------------------------------ *)
(** *** The loop handlers of the App *)

Module AppFacts.

Import LoopHook App.

Lemma run_app (st : LoopState) (xs ys : list LoopAction) : run st (xs ++ ys) = run (run st xs) ys.
Proof. unfold run. apply fold_left_app. Qed.

Lemma setLoopRegionHandler_region (s e n : Z) (p : AudioPlayer.Player) :
  AudioPlayer.loopRegion (fst (AudioPlayer.setLoopRegionHandler s e n p)) =
  Some (AudioPlayer.mkRegion s e n 0 true).
Proof.
  unfold AudioPlayer.setLoopRegionHandler.
  destruct (AudioPlayer.isDemoMode p), (AudioPlayer.isPlaying p), (AudioPlayer.hasAudio p); reflexivity.
Qed.

Lemma on_player_region (p : option AudioPlayer.Player) (s e n : Z) :
  forall p', on_player p (AudioPlayer.setLoopRegionHandler s e n) = Some p' ->
  AudioPlayer.loopRegion p' = Some (AudioPlayer.mkRegion s e n 0 true).
Proof.
  intros p' H. destruct p as [q|]; [|discriminate]. injection H as <-.
  apply setLoopRegionHandler_region.
Qed.

(** [handleStartTimeLoop(s, e, n)] with the hook already in ['time'] mode:
    the player loops over [[s, e]], but the hook's loop is started by the
    [startLoop] of the same render, which reads the range the hook had
    before the handler, so the hook records the old range (validated), not
    [[s, e]]. *)
Theorem handleStartTimeLoop_time_mode (a : AppState) (data : option LyricsData) (duration s e n : Z) :
  mode (hook a) = Some time_mode ->
  let v := validateTimeRange (startTime (hook a)) (endTime (hook a)) duration in
  hook (handleStartTimeLoop a data duration s e n) =
    mkLoopState true (Some time_mode) (fst v) (snd v) [] (Z.max 0 n) 0 /\
  (forall p, player (handleStartTimeLoop a data duration s e n) = Some p ->
     AudioPlayer.loopRegion p = Some (AudioPlayer.mkRegion s e n 0 true)).
Proof.
  intros Hm. cbv zeta. split; [|apply on_player_region].
  unfold handleStartTimeLoop, startLoop_dispatch, startLoop_action. cbn [hook]. rewrite Hm.
  destruct (validateTimeRange (startTime (hook a)) (endTime (hook a)) duration) as [vs ve].
  reflexivity.
Qed.

(** [handleStartTimeLoop(s, e, n)] with no loop mode set yet: the render's
    [startLoop] sees no mode and dispatches nothing, so the hook gets the
    mode and the range but its loop stays as it was (inactive after a
    reset), while the player loops over [[s, e]]. *)
Theorem handleStartTimeLoop_no_mode (a : AppState) (data : option LyricsData) (duration s e n : Z) :
  mode (hook a) = None ->
  hook (handleStartTimeLoop a data duration s e n) =
    mkLoopState (isActive (hook a)) (Some time_mode) s e [] (Z.max 0 n) (currentIteration (hook a)) /\
  (forall p, player (handleStartTimeLoop a data duration s e n) = Some p ->
     AudioPlayer.loopRegion p = Some (AudioPlayer.mkRegion s e n 0 true)).
Proof.
  intros Hm. split; [|apply on_player_region].
  unfold handleStartTimeLoop, startLoop_dispatch, startLoop_action. cbn [hook]. rewrite Hm.
  reflexivity.
Qed.

(** [handleStartLyricsLoop(n)] in ['lyrics'] mode when the selected lines
    span a range [(s, e)] with [s <> e]: the hook's loop is started over the
    validated range, while the player is given the raw range [[s, e]]. *)
Theorem handleStartLyricsLoop_ranges (a : AppState) (data : option LyricsData) (duration n s e : Z) :
  mode (hook a) = Some lyrics_mode ->
  calculateTimeRangeFromLyrics (selectedLyricIndices (hook a)) data = (s, e) -> s <> e ->
  let v := validateTimeRange s e duration in
  hook (handleStartLyricsLoop a data duration n) =
    mkLoopState true (Some lyrics_mode) (fst v) (snd v) (selectedLyricIndices (hook a)) (Z.max 0 n) 0 /\
  (forall p, player (handleStartLyricsLoop a data duration n) = Some p ->
     AudioPlayer.loopRegion p = Some (AudioPlayer.mkRegion s e n 0 true)).
Proof.
  intros Hm Hr Hne. cbv zeta.
  unfold handleStartLyricsLoop, startLoop_dispatch, startLoop_action, startLoop, getCalculatedTimeRange.
  cbn [hook player]. rewrite Hm, Hr.
  destruct (s =? e) eqn:E; zbool; [contradiction|].
  destruct (validateTimeRange s e duration) as [vs ve]. cbn [fst]. split; [reflexivity|].
  apply on_player_region.
Qed.

Lemma handleLyricSelection_selection (a : AppState) (index : Z) (selected : bool) :
  selectedLyricIndices (hook (handleLyricSelection a index selected)) =
  selectedLyricIndices (loopReducer (hook a) (TOGGLE_LYRIC_SELECTION index)).
Proof.
  unfold handleLyricSelection. cbn [hook].
  destruct (selected && negb (isLyricSelected (hook a) index) &&
            Nat.eqb (List.length (selectedLyricIndices (hook a))) 0); [reflexivity|].
  destruct (negb selected && isLyricSelected (hook a) index &&
            Nat.eqb (List.length (selectedLyricIndices (hook a))) 1) eqn:E; [|reflexivity].
  apply andb_true_iff in E as [E Hn]. apply andb_true_iff in E as [_ Hw].
  apply Nat.eqb_eq in Hn. unfold isLyricSelected in Hw.
  destruct (selectedLyricIndices (hook a)) as [|x [|y ys]] eqn:Es; try discriminate.
  simpl in Hw |- *. rewrite Es. simpl. rewrite Hw. simpl.
  rewrite orb_false_r in Hw. rewrite Z.eqb_sym, Hw. reflexivity.
Qed.

(** [handleLyricSelection(index, selected)] always toggles [index]: it
    deselects an index that is selected and selects one that is not,
    whatever [selected] says, and leaves the other indices as they were. *)
Theorem handleLyricSelection_flips (a : AppState) (index : Z) (selected : bool) (j : Z) :
  isLyricSelected (hook (handleLyricSelection a index selected)) j =
  if j =? index then negb (isLyricSelected (hook a) index) else isLyricSelected (hook a) j.
Proof.
  unfold isLyricSelected at 1. rewrite handleLyricSelection_selection.
  pose proof (SelectionFacts.toggle_In (hook a) index j) as H. unfold isLyricSelected.
  destruct (existsb (Z.eqb j) (selectedLyricIndices (loopReducer (hook a) (TOGGLE_LYRIC_SELECTION index)))) eqn:E1.
  - apply SelectionFacts.existsb_eqb_In, H in E1. destruct (j =? index).
    + destruct (existsb (Z.eqb index) (selectedLyricIndices (hook a))) eqn:E2; [|reflexivity].
      apply SelectionFacts.existsb_eqb_In in E2. contradiction.
    + symmetry. apply SelectionFacts.existsb_eqb_In, E1.
  - assert (Hn : ~ In j (selectedLyricIndices (loopReducer (hook a) (TOGGLE_LYRIC_SELECTION index))))
      by (intros Hj; apply SelectionFacts.existsb_eqb_In in Hj; congruence).
    rewrite H in Hn. destruct (j =? index).
    + destruct (existsb (Z.eqb index) (selectedLyricIndices (hook a))) eqn:E2; [reflexivity|].
      exfalso. apply Hn. intros Hi. apply SelectionFacts.existsb_eqb_In in Hi. congruence.
    + symmetry. destruct (existsb (Z.eqb j) (selectedLyricIndices (hook a))) eqn:E2; [|reflexivity].
      apply SelectionFacts.existsb_eqb_In in E2. contradiction.
Qed.

(** [handleLyricSelection] switches the loop mode with the selection: the
    first selected line turns on ['lyrics'] mode, and deselecting the only
    selected line clears the mode. *)
Theorem handleLyricSelection_mode (a : AppState) (index : Z) :
  (selectedLyricIndices (hook a) = [] ->
     selectedLyricIndices (hook (handleLyricSelection a index true)) = [index] /\
     mode (hook (handleLyricSelection a index true)) = Some lyrics_mode) /\
  (selectedLyricIndices (hook a) = [index] ->
     selectedLyricIndices (hook (handleLyricSelection a index false)) = [] /\
     mode (hook (handleLyricSelection a index false)) = None).
Proof.
  destruct a as [[act m st et sel rc ci] pl]. cbn [hook selectedLyricIndices].
  split; intros Hs; subst sel; simpl.
  - split; reflexivity.
  - unfold isLyricSelected; simpl; rewrite Z.eqb_refl; simpl; split; reflexivity.
Qed.

(** A tick of the App's player at the end of its active loop region: while
    the region repeats, the player rewinds and the hook counts one
    iteration; when the region has run its count, the player deactivates
    it but the hook is not told: its state, and so its active loop, stays
    as it was. *)
Theorem app_tick_at_loop_end (a : AppState) (p : AudioPlayer.Player) (r : AudioPlayer.LoopRegion) :
  player a = Some p -> AudioPlayer.loopRegion p = Some r -> AudioPlayer.isActive r = true ->
  AudioPlayer.endTime r <= AudioPlayer.audioTime p ->
  (AudioPlayer.shouldContinue r = true ->
     hook (app_tick a) = loopReducer (hook a) INCREMENT_ITERATION /\
     exists p', player (app_tick a) = Some p' /\
       AudioPlayer.loopRegion p' =
         Some (AudioPlayer.with_iteration r (AudioPlayer.currentIteration r + 1))) /\
  (AudioPlayer.shouldContinue r = false ->
     hook (app_tick a) = hook a /\
     exists p', player (app_tick a) = Some p' /\
       AudioPlayer.loopRegion p' = Some (AudioPlayer.deactivated r)).
Proof.
  intros Hp Hr Ha He. unfold app_tick. rewrite Hp.
  unfold AudioPlayer.handleTimeUpdate, AudioPlayer.checkLoopBoundary.
  cbn [AudioPlayer.set_currentTime AudioPlayer.loopRegion]. rewrite Hr, Ha.
  assert (E : (AudioPlayer.endTime r <=? AudioPlayer.audioTime p) = true) by (apply Z.leb_le; exact He).
  rewrite E. cbn [andb].
  split; intros Hs; rewrite Hs.
  - cbn [AudioPlayer.set_currentTime AudioPlayer.set_region AudioPlayer.isDemoMode AudioPlayer.hasAudio].
    destruct (AudioPlayer.isDemoMode p), (AudioPlayer.hasAudio p);
      (split; [reflexivity|eexists; split; reflexivity]).
  - cbn [AudioPlayer.set_currentTime AudioPlayer.set_region AudioPlayer.isPlaying].
    destruct (AudioPlayer.isPlaying p); (split; [reflexivity|eexists; split; reflexivity]).
Qed.

End AppFacts.

(* ------------------------------------------------------------------ *)
(** *** Seeking inside and past a loop region *)

Module PlayerFacts.

Import AudioPlayer.

(** [seekTo(t)] on the audio element while a loop region is active, then
    the next tick: a position before the loop end (also one before the loop
    start) is kept as it is, with no further seek; a position at or past the
    loop end sends playback back to the loop start and counts an iteration,
    while the region has iterations left. *)
Theorem seek_then_tick (p : Player) (r : LoopRegion) (t : Z) :
  isDemoMode p = false -> hasAudio p = true -> loopRegion p = Some r -> isActive r = true ->
  let c := Z.max 0 (Z.min t (duration p)) in
  let p2 := fst (handleTimeUpdate (fst (seekTo t p))) in
  let effs := snd (handleTimeUpdate (fst (seekTo t p))) in
  (c < endTime r ->
     audioTime p2 = c /\ currentTime p2 = c /\ loopRegion p2 = Some r /\ seeks effs = []) /\
  (endTime r <= c -> shouldContinue r = true ->
     audioTime p2 = startTime r /\ currentTime p2 = startTime r /\
     loopRegion p2 = Some (with_iteration r (currentIteration r + 1)) /\
     seeks effs = [AudioSeek (startTime r)] /\ iterations effs = [OnLoopIteration]).
Proof.
  intros Hd Hh Hr Ha. cbv zeta. unfold seekTo. rewrite Hd, Hh.
  set (c := Z.max 0 (Z.min t (duration p))).
  assert (Hs : forall q, audioTime q = c -> loopRegion q = Some r -> isDemoMode q = false ->
            hasAudio q = true ->
            (c < endTime r ->
               audioTime (fst (handleTimeUpdate q)) = c /\ currentTime (fst (handleTimeUpdate q)) = c /\
               loopRegion (fst (handleTimeUpdate q)) = Some r /\ seeks (snd (handleTimeUpdate q)) = []) /\
            (endTime r <= c -> shouldContinue r = true ->
               audioTime (fst (handleTimeUpdate q)) = startTime r /\
               currentTime (fst (handleTimeUpdate q)) = startTime r /\
               loopRegion (fst (handleTimeUpdate q)) = Some (with_iteration r (currentIteration r + 1)) /\
               seeks (snd (handleTimeUpdate q)) = [AudioSeek (startTime r)] /\
               iterations (snd (handleTimeUpdate q)) = [OnLoopIteration])).
  { intros q Hq Hqr Hqd Hqh. unfold handleTimeUpdate, checkLoopBoundary.
    cbn [set_currentTime loopRegion]. rewrite Hqr, Ha, Hq. split.
    - intros Hlt. assert (E : (endTime r <=? c) = false) by (apply Z.leb_gt; exact Hlt).
      rewrite E. cbn. repeat split; assumption.
    - intros Hge Hc. assert (E : (endTime r <=? c) = true) by (apply Z.leb_le; exact Hge).
      rewrite E, Hc. cbn [andb set_region set_currentTime isDemoMode hasAudio].
      rewrite Hqd, Hqh. cbn. repeat split. }
  destruct (isPlaying p); cbn [negb fst snd]; apply Hs; reflexivity || (cbn; assumption).
Qed.

End PlayerFacts.

(* ------------------------------------------------------------------ *)
(** *** [parseJSON] on the JSON document of a transcript *)

Module ParserRoundTrip.

Import Types Parser.

Lemma validate_line_json (index : Z) (l : LyricLine) :
  validate_line index (line_json l) =
  if Types.endTime l <=? Types.startTime l then inl (InvalidLineOrder index) else inr l.
Proof.
  destruct l as [s e j r g]. unfold validate_line, line_json. cbn.
  destruct (e <=? s); reflexivity.
Qed.

Lemma map_lines_json (index : Z) (ls : list LyricLine) :
  Forall (fun l => Types.startTime l < Types.endTime l) ls ->
  map_lines index (map line_json ls) = inr ls.
Proof.
  intros Hv. revert index. induction Hv as [|l ls Hl Hls IH]; intros index; [reflexivity|].
  cbn [map map_lines]. rewrite validate_line_json.
  destruct (Types.endTime l <=? Types.startTime l) eqn:E; zbool; [lia|]. cbn [bind].
  rewrite IH. reflexivity.
Qed.

Lemma map_lines_json_invalid (index : Z) (pre : list LyricLine) (l : LyricLine) (post : list LyricLine) :
  Forall (fun l => Types.startTime l < Types.endTime l) pre -> Types.endTime l <= Types.startTime l ->
  map_lines index (map line_json (pre ++ l :: post)) = inl (InvalidLineOrder (index + len pre)).
Proof.
  intros Hv Hl. revert index. induction Hv as [|x xs Hx Hxs IH]; intros index.
  - cbn [app map map_lines]. rewrite validate_line_json.
    destruct (Types.endTime l <=? Types.startTime l) eqn:E; zbool; [|lia].
    unfold len. cbn. rewrite Z.add_0_r. reflexivity.
  - cbn [app map map_lines]. rewrite validate_line_json.
    destruct (Types.endTime x <=? Types.startTime x) eqn:E; zbool; [lia|]. cbn [bind].
    rewrite IH. cbn [bind]. unfold len. cbn [List.length]. rewrite Nat2Z.inj_succ.
    f_equal. f_equal. lia.
Qed.

Lemma sort_by_already_sorted (ls : list LyricLine) :
  Sorted (fun a b => Types.startTime a <= Types.startTime b) ls -> sort_by by_startTime ls = ls.
Proof.
  induction ls as [|x xs IH]; intros Hs; [reflexivity|].
  apply Sorted_inv in Hs as [Hxs Hx].
  change (sort_by by_startTime (x :: xs)) with (insert_by by_startTime x (sort_by by_startTime xs)).
  rewrite (IH Hxs). destruct xs as [|y ys]; [reflexivity|].
  apply HdRel_inv in Hx. cbn [insert_by]. unfold by_startTime.
  destruct (Types.startTime x <=? Types.startTime y) eqn:E; zbool; [reflexivity|lia].
Qed.

Lemma parseJSON_lyrics_json (d : LyricsData) :
  truthy (Some (title (metadata d))) = true -> truthy (Some (artist (metadata d))) = true ->
  parseJSON (lyrics_json d) =
  (validatedLyrics <- map_lines 0 (map line_json (lyrics d)) ;;
   inr (mkLyricsData (metadata d) (sort_by by_startTime validatedLyrics))).
Proof.
  intros Ht Ha. destruct d as [[ti ar du] ls]. cbn in Ht, Ha. unfold parseJSON, lyrics_json. cbn.
  destruct ti; try discriminate; destruct ar; try discriminate; cbn in *; rewrite ?Ht, ?Ha; reflexivity.
Qed.

(** [parseJSON] reads back the JSON document of a transcript whose title
    and artist are truthy and whose lines all have [startTime < endTime]:
    the same metadata and the lines sorted by start time, so a transcript
    already in that order comes back unchanged. *)
Theorem parseJSON_round_trip (d : LyricsData) :
  truthy (Some (title (metadata d))) = true -> truthy (Some (artist (metadata d))) = true ->
  Forall (fun l => Types.startTime l < Types.endTime l) (lyrics d) ->
  parseJSON (lyrics_json d) = inr (mkLyricsData (metadata d) (sort_by by_startTime (lyrics d))) /\
  (Sorted (fun a b => Types.startTime a <= Types.startTime b) (lyrics d) -> parseJSON (lyrics_json d) = inr d).
Proof.
  intros Ht Ha Hv. rewrite (parseJSON_lyrics_json d Ht Ha), (map_lines_json 0 _ Hv). cbn [bind].
  split; [reflexivity|]. intros Hs. rewrite (sort_by_already_sorted _ Hs). destruct d; reflexivity.
Qed.

(** When a line of the document has [endTime <= startTime], [parseJSON]
    rejects the whole document with the ordering error, naming the index
    of the first such line. *)
Theorem parseJSON_first_invalid_line (d : LyricsData) (pre : list LyricLine) (l : LyricLine)
    (post : list LyricLine) :
  truthy (Some (title (metadata d))) = true -> truthy (Some (artist (metadata d))) = true ->
  lyrics d = pre ++ l :: post ->
  Forall (fun l => Types.startTime l < Types.endTime l) pre -> Types.endTime l <= Types.startTime l ->
  parseJSON (lyrics_json d) = inl (InvalidLineOrder (len pre)).
Proof.
  intros Ht Ha Hd Hv Hl. rewrite (parseJSON_lyrics_json d Ht Ha), Hd.
  rewrite (map_lines_json_invalid 0 pre l post Hv Hl). reflexivity.
Qed.

End ParserRoundTrip.

(* ================================================================== *)
(** ** The further theorems at concrete inputs *)

Module ExtraWitnesses.

Import Types Scenario.

Lemma findCurrentLine_during_loop_witness :
  Sync.loop_active (Some looping_state) = true /\
  cl_isActive (Sync.findCurrentLine (Some scenario_data) 2200 true (Some looping_state) None) = true.
Proof.
  split; [reflexivity|].
  exact (proj1 (SyncFacts.findCurrentLine_during_loop scenario_data 2200 true (Some looping_state) None
                  eq_refl ltac:(discriminate))).
Defined.

Lemma findCurrentLine_individual_loop_witness :
  Sync.loop_active None = false /\ Progress.il_isActive line_loop = true /\
  cl_isActive (Sync.findCurrentLine (Some scenario_data) 2200 true None (Some line_loop)) = true.
Proof.
  split; [reflexivity|split; [reflexivity|]].
  exact (proj1 (SyncFacts.findCurrentLine_individual_loop scenario_data 2200 true None line_loop
                  eq_refl eq_refl ltac:(discriminate))).
Defined.

Lemma display_line_active_witness :
  Sync.display_line (Some scenario_data) 1000 true = Sync.line_result scenario_lyrics 0 true.
Proof.
  destruct (SyncFacts.display_line_active scenario_data 1000 true ScenarioFacts.scenario_sorted
              ScenarioFacts.scenario_non_overlapping ScenarioFacts.scenario_valid (or_introl eq_refl))
    as [H _].
  apply H; [unfold len; simpl; lia|unfold SegmentIndex.in_line; simpl; lia].
Defined.

Lemma display_line_between_lines_witness :
  Sync.display_line (Some scenario_data) 7000 true = Sync.line_result scenario_lyrics 2 false.
Proof.
  destruct (SyncFacts.display_line_between_lines scenario_data 7000 true (or_introl eq_refl)
              ltac:(discriminate)
              ltac:(intros i Hi; unfold SegmentIndex.in_line, len in *; simpl in *;
                    assert (i = 0 \/ i = 1 \/ i = 2) as [-> | [-> | ->]] by lia; simpl; lia))
    as [_ [H _]].
  apply H; simpl; lia.
Defined.

Lemma toggle_twice_identity_witness :
  Sorted Z.lt (LoopHook.selectedLyricIndices scenario_selection) /\
  LoopHook.loopReducer (LoopHook.loopReducer scenario_selection (LoopHook.TOGGLE_LYRIC_SELECTION 1))
    (LoopHook.TOGGLE_LYRIC_SELECTION 1) = scenario_selection.
Proof.
  assert (Hs : Sorted Z.lt (LoopHook.selectedLyricIndices scenario_selection))
    by (simpl; repeat constructor).
  split; [exact Hs|exact (SelectionFacts.toggle_twice_identity scenario_selection 1 Hs)].
Defined.

Lemma startLoop_agrees_canStartLoop_witness :
  fst (LoopHook.startLoop scenario_selection (Some scenario_data) 6000) =
  LoopHook.canStartLoop scenario_selection (Some scenario_data).
Proof.
  exact (SelectionFacts.startLoop_agrees_canStartLoop scenario_selection scenario_data 6000 eq_refl
           ScenarioFacts.scenario_valid).
Defined.

Lemma startLoop_time_mode_ignores_canStartLoop_witness :
  LoopHook.canStartLoop (LoopHook.mkLoopState false (Some LoopHook.time_mode) 5000 3000 [] 1 0) None = false /\
  fst (LoopHook.startLoop (LoopHook.mkLoopState false (Some LoopHook.time_mode) 5000 3000 [] 1 0) None 6000) = true.
Proof.
  destruct (SelectionFacts.startLoop_time_mode_ignores_canStartLoop
              (LoopHook.mkLoopState false (Some LoopHook.time_mode) 5000 3000 [] 1 0) None 6000
              eq_refl ltac:(simpl; lia)) as [H1 [H2 _]].
  split; [exact H1|exact H2].
Defined.

Lemma handleStartTimeLoop_time_mode_witness :
  LoopHook.startTime (App.hook (App.handleStartTimeLoop (App.mkApp time_state (Some scenario_paused))
                                  (Some scenario_data) 6000 2500 4000 3)) = 0 /\
  option_map AudioPlayer.loopRegion
    (App.player (App.handleStartTimeLoop (App.mkApp time_state (Some scenario_paused))
                   (Some scenario_data) 6000 2500 4000 3)) =
  Some (Some (AudioPlayer.mkRegion 2500 4000 3 0 true)).
Proof.
  destruct (AppFacts.handleStartTimeLoop_time_mode (App.mkApp time_state (Some scenario_paused))
              (Some scenario_data) 6000 2500 4000 3 eq_refl) as [H1 H2].
  split; [rewrite H1; reflexivity|].
  destruct (App.player _) as [p|] eqn:E; [cbn; rewrite (H2 p eq_refl); reflexivity|discriminate].
Defined.

Lemma handleStartTimeLoop_no_mode_witness :
  LoopHook.isActive (App.hook (App.handleStartTimeLoop (App.mkApp LoopHook.initialLoopState (Some scenario_paused))
                                 (Some scenario_data) 6000 2500 4000 3)) = false.
Proof.
  destruct (AppFacts.handleStartTimeLoop_no_mode (App.mkApp LoopHook.initialLoopState (Some scenario_paused))
              (Some scenario_data) 6000 2500 4000 3 eq_refl) as [H1 _].
  rewrite H1. reflexivity.
Defined.

Lemma handleStartLyricsLoop_ranges_witness :
  option_map AudioPlayer.loopRegion
    (App.player (App.handleStartLyricsLoop (App.mkApp scenario_selection (Some scenario_paused))
                   (Some scenario_data) 6000 2)) =
  Some (Some (AudioPlayer.mkRegion 0 4000 2 0 true)).
Proof.
  pose proof (proj2 (AppFacts.handleStartLyricsLoop_ranges (App.mkApp scenario_selection (Some scenario_paused))
                       (Some scenario_data) 6000 2 0 4000 eq_refl ltac:(vm_compute; reflexivity)
                       ltac:(discriminate))) as H.
  destruct (App.player _) as [p|] eqn:E; [cbn; rewrite (H p eq_refl); reflexivity|discriminate].
Defined.

Lemma app_tick_at_loop_end_witness :
  App.hook (App.app_tick (App.mkApp looping_state (Some scenario_player))) =
  LoopHook.loopReducer looping_state LoopHook.INCREMENT_ITERATION.
Proof.
  destruct (AppFacts.app_tick_at_loop_end (App.mkApp looping_state (Some scenario_player))
              scenario_player scenario_region eq_refl eq_refl eq_refl ltac:(simpl; lia)) as [H _].
  exact (proj1 (H eq_refl)).
Defined.

Lemma seek_then_tick_witness :
  AudioPlayer.audioTime (fst (AudioPlayer.handleTimeUpdate (fst (AudioPlayer.seekTo 2500 scenario_player)))) = 0.
Proof.
  destruct (PlayerFacts.seek_then_tick scenario_player scenario_region 2500 eq_refl eq_refl eq_refl eq_refl)
    as [_ H].
  exact (proj1 (H ltac:(simpl; lia) eq_refl)).
Defined.

Lemma parseJSON_round_trip_witness :
  Parser.parseJSON (Parser.lyrics_json scenario_data) = inr scenario_data.
Proof.
  destruct (ParserRoundTrip.parseJSON_round_trip scenario_data eq_refl eq_refl
              ltac:(simpl; repeat constructor; simpl; lia)) as [_ H].
  apply H. simpl. repeat constructor; simpl; lia.
Defined.

Lemma parseJSON_first_invalid_line_witness :
  Parser.parseJSON (Parser.lyrics_json bad_data) = inl (Parser.InvalidLineOrder 1).
Proof.
  exact (ParserRoundTrip.parseJSON_first_invalid_line bad_data [scenario_line 0 2000]
           (scenario_line 3000 3000) [scenario_line 4000 5000] eq_refl eq_refl eq_refl
           ltac:(repeat constructor; simpl; lia) ltac:(simpl; lia)).
Defined.

End ExtraWitnesses.
